(** * Bone-Ager front end: a shallow embedding of [bone_age/frontend/main.py]

    The script is a linear Streamlit page.  Its logic is
    - [normalize_to_uint8], a min-max rescale computed by NumPy in
      IEEE-754 binary32 and cast to [uint8];
    - the DICOM metadata scrub and the order of the steps of the DICOM path;
    - the stub [estimate_bone_age], the confidence band and the derived
      download file name.

    NumPy's [float32] arithmetic is modelled with the Standard Library's
    [SpecFloat] at precision 24 and maximal exponent 128; pixel arrays are
    integer valued (what [pydicom]'s [pixel_array] yields), stored flat next
    to their shape; a DICOM data set and Streamlit's session state are finite
    maps; Python strings are lists of code points. *)

From Stdlib Require Import ZArith QArith Qminmax Lia List Bool String Ascii.
From Stdlib Require Import DecimalString Lqa.
From Stdlib Require Import Floats.SpecFloat.
From stdpp Require Import gmap strings list fin_maps.

Local Open Scope Z_scope.

(** ** binary32 as NumPy uses it *)

Module Float32.

Definition prec : Z := 24.
Definition emax : Z := 128.

(** [ndarray.astype(np.float32)] on an integer sample, and the conversion of
    the Python integer [255] in [255 * image]: round to nearest even. *)
Definition of_Z (z : Z) : spec_float := binary_normalize prec emax z 0 false.

Definition sub : spec_float -> spec_float -> spec_float := SFsub prec emax.
Definition mul : spec_float -> spec_float -> spec_float := SFmul prec emax.
Definition div : spec_float -> spec_float -> spec_float := SFdiv prec emax.

(** The C conversion of a float to an integer: the fractional part is
    discarded (truncation toward zero).  Non-finite values have no defined
    conversion; they are sent to 0 here. *)
Definition trunc (f : spec_float) : Z :=
  match f with
  | S754_finite s m e =>
      let a := match e with
               | Zneg p => Zpos m / 2 ^ Zpos p
               | _ => Zpos m * 2 ^ e
               end in
      if s then - a else a
  | _ => 0
  end.

(** [astype(np.uint8)] of a binary32 value: truncate, keep the low 8 bits. *)
Definition to_uint8 (f : spec_float) : Z := trunc f mod 256.

(** *** The shift-right records of [SpecFloat], read as exact quotients

    [rec_of N D] is the record that describes the non-negative rational
    [N / D]: its integer part, whether the fraction reaches one half, and
    whether anything is left beyond that. *)
Definition rec_of (N D : Z) : shr_record :=
  let rho := N mod D in
  {| shr_m := N / D;
     shr_r := D <=? 2 * rho;
     shr_s := negb ((if D <=? 2 * rho then 2 * rho - D else rho) =? 0) |}.

(** Round to nearest, ties to even, of [N / D]. *)
Definition rne (N D : Z) : Z :=
  round_nearest_even (shr_m (rec_of N D)) (loc_of_shr_record (rec_of N D)).

(** *** Integers as binary32 values

    [canon z] is the binary32 number equal to the integer [z]: mantissa
    [mant |z|] of exactly 24 bits and exponent [expo |z|].  It exists for
    [|z| < 2 ^ 24]. *)
Definition expo (z : Z) : Z := Zdigits2 z - 24.
Definition mant (z : Z) : positive := Z.to_pos (z * 2 ^ (- expo z)).

Definition canon (z : Z) : spec_float :=
  match z with
  | Z0 => S754_zero false
  | Zpos p => S754_finite false (mant (Zpos p)) (expo (Zpos p))
  | Zneg p => S754_finite true (mant (Zpos p)) (expo (Zpos p))
  end.

(** *** Comparison, as [np.minimum] and [np.maximum] use it *)

Definition leb : spec_float -> spec_float -> bool := SFleb.

Definition is_nan (f : spec_float) : bool :=
  match f with S754_nan => true | _ => false end.

(** NumPy's scalar loops: [(a <= b || isnan(a)) ? a : b] and its mirror. *)
Definition minimum (a b : spec_float) : spec_float :=
  if leb a b || is_nan a then a else b.
Definition maximum (a b : spec_float) : spec_float :=
  if leb b a || is_nan a then a else b.

End Float32.

(** ** [normalize_to_uint8] *)

Module Normalizer.
Import Float32.

(** The element types that reach the function ([pixel_array] of a DICOM file)
    and the one it returns. *)
Inductive dtype := Int8 | UInt8 | Int16 | UInt16 | Int32 | UInt32.

(** A NumPy array: element type, shape, and the samples in row-major order. *)
Record ndarray := { dtype_of : dtype; shape : list nat; data : list Z }.

(** [np.max] and [np.min] on the integer array; [None] is the [ValueError]
    NumPy raises on an empty array. *)
Definition np_max (l : list Z) : option Z :=
  match l with [] => None | x :: r => Some (fold_left Z.max r x) end.
Definition np_min (l : list Z) : option Z :=
  match l with [] => None | x :: r => Some (fold_left Z.min r x) end.

(** The same reductions once the array is [float32]. *)
Definition np_max_f32 (l : list spec_float) : option spec_float :=
  match l with [] => None | x :: r => Some (fold_left maximum r x) end.
Definition np_min_f32 (l : list spec_float) : option spec_float :=
  match l with [] => None | x :: r => Some (fold_left minimum r x) end.

(** [np.zeros_like(image, dtype=np.uint8)] *)
Definition zeros_like_uint8 (image : ndarray) : ndarray :=
  {| dtype_of := UInt8; shape := shape image;
     data := map (fun _ => 0) (data image) |}.

(** [255 * (x - lo) / (hi - lo)] on one [float32] sample. *)
Definition rescale (lo hi x : spec_float) : spec_float :=
  div (mul (of_Z 255) (sub x lo)) (sub hi lo).

Definition normalize_to_uint8 (image : ndarray) : option ndarray :=
  hi ← np_max (data image);
  lo ← np_min (data image);
  if decide (hi = lo) then Some (zeros_like_uint8 image)
  else
    let image32 := map of_Z (data image) in
    lo32 ← np_min_f32 image32;
    hi32 ← np_max_f32 image32;
    let scaled := map (rescale lo32 hi32) image32 in
    Some {| dtype_of := UInt8; shape := shape image;
            data := map to_uint8 scaled |}.

(** What the rescale computes when binary32 is exact: the integer quotient. *)
Definition floor_scale (lo hi x : Z) : Z := 255 * (x - lo) / (hi - lo).

(** The formula of the specification: round to nearest (ties to even), then
    keep the low 8 bits. *)
Definition round_div (n d : Z) : Z :=
  let q := n / d in
  let r := n mod d in
  if 2 * r <? d then q
  else if d <? 2 * r then q + 1
  else if Z.even q then q else q + 1.
Definition round_scale (lo hi x : Z) : Z :=
  round_div (255 * (x - lo)) (hi - lo) mod 256.

(** Samples that binary32 holds exactly. *)
Definition fits_float32 (x : Z) : Prop := Z.abs x < 2 ^ 24.

(** The values an element type holds, and the types of at most 16 bits. *)
Definition dtype_min (t : dtype) : Z :=
  match t with
  | Int8 => -128 | Int16 => -32768 | Int32 => -2147483648
  | UInt8 | UInt16 | UInt32 => 0
  end.
Definition dtype_max (t : dtype) : Z :=
  match t with
  | Int8 => 127 | UInt8 => 255 | Int16 => 32767 | UInt16 => 65535
  | Int32 => 2147483647 | UInt32 => 4294967295
  end.
Definition well_typed (image : ndarray) : Prop :=
  Forall (fun x => dtype_min (dtype_of image) <= x <= dtype_max (dtype_of image))
         (data image).
Definition narrow (t : dtype) : bool :=
  match t with Int32 | UInt32 => false | _ => true end.

(** Equal up to one unit of rounding, element by element. *)
Definition close_up_to_rounding (a b : ndarray) : Prop :=
  dtype_of a = dtype_of b /\ shape a = shape b /\
  Forall2 (fun x y => Z.abs (x - y) <= 1) (data a) (data b).

(** The two statements of the specification that the code does not meet in
    general, as properties of one input image. *)
Definition rescales_by_rounding (image : ndarray) : Prop :=
  forall lo hi,
    np_min (data image) = Some lo -> np_max (data image) = Some hi -> lo < hi ->
    exists out, normalize_to_uint8 image = Some out /\
                data out = map (round_scale lo hi) (data image).

Definition spans_full_range (image : ndarray) : Prop :=
  forall lo hi,
    np_min (data image) = Some lo -> np_max (data image) = Some hi -> lo < hi ->
    exists out, normalize_to_uint8 image = Some out /\
                np_min (data out) = Some 0 /\ np_max (data out) = Some 255.

End Normalizer.

(** ** Python strings *)

Module Py.

(** A [str] is a sequence of Unicode code points. *)
Definition str : Type := list N.

(** A literal of the source, all of whose characters are ASCII. *)
Definition lit (s : string) : str := map N_of_ascii (list_ascii_of_string s).

(** [str.isspace] on one character: CPython's table of white space. *)
Definition isspace (c : N) : bool :=
  ((9 <=? c) && (c <=? 13) || (28 <=? c) && (c <=? 31) || (c =? 32)
   || (c =? 133) || (c =? 160) || (c =? 5760)
   || (8192 <=? c) && (c <=? 8202) || (c =? 8232) || (c =? 8233)
   || (c =? 8239) || (c =? 8287) || (c =? 12288))%N.

(** [str.lstrip()], [str.rstrip()], [str.strip()] without argument. *)
Fixpoint lstrip (s : str) : str :=
  match s with
  | [] => []
  | c :: r => if isspace c then lstrip r else s
  end.
Definition rstrip (s : str) : str := rev (lstrip (rev s)).
Definition strip (s : str) : str := rstrip (lstrip s).

(** [s.replace(old, new)] for one-character [old] and [new]. *)
Definition replace (old new : N) (s : str) : str :=
  map (fun c => if (c =? old)%N then new else c) s.

Definition space : N := 32.
Definition underscore : N := 95.

End Py.

(** ** The DICOM metadata scrub *)

Module Dicom.

Inductive Value := Text (s : Py.str) | Binary (b : list Z) | Number (z : Z).

(** A data element: its value representation and its value. *)
Record DataElement := { VR : string; value : Value }.

(** A decoded data set, by element keyword. *)
Abbreviation Dataset := (gmap string DataElement).

Definition scrub_tags : list string :=
  ["PatientName"; "PatientID"; "PatientBirthDate"]%string.

(** [tag in dicom_data] *)
Definition contains (dicom_data : Dataset) (tag : string) : bool :=
  bool_decide (is_Some (dicom_data !! tag)).

(** [dicom_data.data_element(tag)]: the element, [None] when there is none. *)
Definition data_element (dicom_data : Dataset) (tag : string) : option DataElement :=
  dicom_data !! tag.

(** [dicom_data.data_element(tag).value = v].  The element is updated in
    place; on [None] the attribute assignment raises (here: no result). *)
Definition set_value (dicom_data : Dataset) (tag : string) (v : Value) : option Dataset :=
  el ← data_element dicom_data tag;
  Some (<[tag := {| VR := VR el; value := v |}]> dicom_data).

(** The loop of lines 76-78 over a list of tags. *)
Fixpoint scrub_from (tags : list string) (dicom_data : Dataset) : option Dataset :=
  match tags with
  | [] => Some dicom_data
  | tag :: rest =>
      if contains dicom_data tag
      then dicom_data' ← set_value dicom_data tag (Text []); scrub_from rest dicom_data'
      else scrub_from rest dicom_data
  end.

Definition scrub (dicom_data : Dataset) : option Dataset :=
  scrub_from scrub_tags dicom_data.

(** An element with its value emptied and its representation kept. *)
Definition emptied (el : DataElement) : DataElement :=
  {| VR := VR el; value := Text [] |}.

(** A field that is absent or holds the empty string. *)
Definition cleared (dicom_data : Dataset) (tag : string) : Prop :=
  value <$> dicom_data !! tag = None \/ value <$> dicom_data !! tag = Some (Text []).

End Dicom.

(** ** Estimate, confidence band, report and file name *)

Module Report.
Import Normalizer.

(** The placeholder model. *)
Definition estimate_bone_age (image_array : ndarray) : Z := 120.

(** Python's two-argument [max] and [min]: the first argument is kept
    unless the second is strictly greater (strictly smaller).  Ages and
    bounds are exact rationals: the script's floats are exact on the
    integers and half-integers it meets. *)
Definition py_max (a b : Q) : Q := if Qle_bool b a then a else b.
Definition py_min (a b : Q) : Q := if Qle_bool a b then a else b.

Definition confidence_low (bone_age : Q) : Q := py_max 0 (bone_age - 1.5).
Definition confidence_high (bone_age : Q) : Q := py_min 216 (bone_age + 1.5).

Inductive gender := Female | Male | Unknown.

Definition gender_str (option : gender) : Py.str :=
  match option with
  | Female => Py.lit "Female"
  | Male => Py.lit "Male"
  | Unknown => Py.lit "Unknown"
  end.

(** Streamlit's session state, by key. *)
Abbreviation SessionState := (gmap string Py.str).

(** [st.session_state.get("name", "patient")] *)
Definition patient_name (session_state : SessionState) : Py.str :=
  default (Py.lit "patient") (session_state !! "name"%string).

(** [f"{bone_age:.1f}"] for an integer [bone_age]. *)
Definition format_1f (bone_age : Z) : Py.str :=
  Py.lit (NilZero.string_of_int (Z.to_int bone_age)) ++ Py.lit ".0".

(** What is written on the page of the PDF, in order. *)
Inductive pdf_op := Cell (txt : Py.str) | Ln.

Definition report (patient_name : Py.str) (option : gender) (bone_age : Z) : list pdf_op :=
  [ Cell (Py.lit "Bone-Ager Report");
    Ln;
    Cell (Py.lit "Patient Name: " ++ patient_name);
    Cell (Py.lit "Gender: " ++ gender_str option);
    Cell (Py.lit "Estimated Bone Age: " ++ format_1f bone_age ++ Py.lit " years") ].

(** [f"{patient_name.strip().replace(' ', '_')}_report.pdf"] *)
Definition safe_filename (patient_name : Py.str) : Py.str :=
  Py.replace Py.space Py.underscore (Py.strip patient_name) ++ Py.lit "_report.pdf".

(** The file name as the specification describes it: a name split into
    leading white space, a core that neither starts nor ends with white
    space, and trailing white space yields the core with its spaces replaced,
    followed by the suffix. *)
Definition no_space_at_ends (core : Py.str) : Prop :=
  (forall c, head core = Some c -> Py.isspace c = false) /\
  (forall c, last core = Some c -> Py.isspace c = false).

Definition trimmed_filename (patient_name file_name : Py.str) : Prop :=
  exists lead core trail,
    patient_name = lead ++ core ++ trail /\
    Forall (fun c => Py.isspace c = true) lead /\
    Forall (fun c => Py.isspace c = true) trail /\
    no_space_at_ends core /\
    file_name
    = map (fun c => if (c =? Py.space)%N then Py.underscore else c) core
      ++ Py.lit "_report.pdf".

End Report.

(** ** The main logic, as a trace of what it does *)

Module App.
Import Normalizer Dicom Report.

(** The observable steps of one run, in the order the script performs them. *)
Inductive event :=
  | MetadataScrubbed                                   (* lines 76-78 done *)
  | PixelArrayRead (dicom_data : Dataset)              (* line 79 *)
  | ImageShown (image : ndarray) (caption : Py.str)    (* lines 81, 84 *)
  | Estimated (image : ndarray) (bone_age : Z)         (* line 88 *)
  | BandShown (confidence_low confidence_high : Q)     (* line 100 *)
  | DownloadOffered (pdf : list pdf_op) (file_name : Py.str).  (* line 121 *)

(** A run appends to the trace and either yields a value or stops with an
    uncaught exception. *)
Definition M (A : Type) : Type := list event -> list event * option A.

#[export] Instance M_ret : MRet M := fun A a t => (t, Some a).
#[export] Instance M_bind : MBind M := fun A B k m t =>
  match m t with
  | (t', Some a) => k a t'
  | (t', None) => (t', None)
  end.

Definition emit (e : event) : M unit := fun t => (t ++ [e], Some tt).
Definition lift {A} (o : option A) : M A := fun t => (t, o).

(** What was uploaded: the lower-cased extension of its name, and what the
    two decoders make of its content ([None]: the decoder raises). *)
Record upload := {
  file_ext : string;
  dcmread : option Dataset;
  image_open : option ndarray
}.

Section Main.
(** [Dataset.pixel_array]: pydicom's decoding of the pixel data. *)
Variable pixel_array : Dataset -> option ndarray.

(** The block under [with col1]. *)
Definition show_upload (uploaded_file : upload) : M ndarray :=
  if String.eqb (file_ext uploaded_file) "dcm" then
    dicom_data ← lift (dcmread uploaded_file);
    dicom_data ← lift (scrub dicom_data);
    _ ← emit MetadataScrubbed;
    _ ← emit (PixelArrayRead dicom_data);
    image ← lift (pixel_array dicom_data);
    image ← lift (normalize_to_uint8 image);
    _ ← emit (ImageShown image (Py.lit "DICOM Image"));
    mret image
  else
    image ← lift (image_open uploaded_file);
    _ ← emit (ImageShown image (Py.lit "Uploaded Image"));
    mret image.

(** The block under [with col2]. *)
Definition show_result (session_state : SessionState) (option : gender)
    (image : ndarray) : M unit :=
  let bone_age := estimate_bone_age image in
  _ ← emit (Estimated image bone_age);
  _ ← emit (BandShown (confidence_low (inject_Z bone_age))
                      (confidence_high (inject_Z bone_age)));
  let patient_name := patient_name session_state in
  emit (DownloadOffered (report patient_name option bone_age)
                        (safe_filename patient_name)).

Definition main (session_state : SessionState) (option : gender)
    (uploaded_file : upload) : M unit :=
  image ← show_upload uploaded_file;
  show_result session_state option image.

(** The events that extract, show or pass on the pixels or the report. *)
Definition uses_record (e : event) : Prop :=
  match e with MetadataScrubbed => False | _ => True end.
End Main.

End App.

(** ** The extension of the uploaded file's name *)

Module Upload.

(** [s.split(sep)] for a one-character separator: every occurrence cuts,
    and there is always at least one piece. *)
Fixpoint split (sep : N) (s : Py.str) : list Py.str :=
  match s with
  | [] => [[]]
  | c :: r =>
      if (c =? sep)%N then [] :: split sep r
      else match split sep r with
           | piece :: pieces => (c :: piece) :: pieces
           | [] => [[c]]
           end
  end.

(** [sep.join(pieces)] *)
Fixpoint join (sep : N) (pieces : list Py.str) : Py.str :=
  match pieces with
  | [] => []
  | [piece] => piece
  | piece :: rest => piece ++ sep :: join sep rest
  end.

Definition dot : N := 46.

Section FileExt.
(** [str.lower()]: the case mapping of the Unicode tables. *)
Variable lower : Py.str -> Py.str.

(** [uploaded_file.name.lower().split(".")[-1]]; [None] is the [IndexError]
    that [[-1]] raises on an empty list. *)
Definition file_ext (name : Py.str) : option Py.str :=
  last (split dot (lower name)).
End FileExt.

End Upload.

(** ** Images derived from an image *)

Module Transforms.
Import Normalizer.

(** Every sample moved by [c], every sample multiplied by [k]. *)
Definition offset (c : Z) (image : ndarray) : ndarray :=
  {| dtype_of := dtype_of image; shape := shape image;
     data := map (fun x => x + c) (data image) |}.
Definition gain (k : Z) (image : ndarray) : ndarray :=
  {| dtype_of := dtype_of image; shape := shape image;
     data := map (fun x => k * x) (data image) |}.

End Transforms.

(** ** Kinds of runs and of decoders *)

Module Runs.
Import Normalizer Dicom Report App.

(** The events of the result column: estimate, band, download. *)
Definition result_event (e : event) : Prop :=
  match e with
  | Estimated _ _ | BandShown _ _ | DownloadOffered _ _ => True
  | _ => False
  end.

(** A pixel decoder that reads nothing of the three identity fields: data
    sets that agree elsewhere decode alike. *)
Definition ignores_identity (pixel_array : Dataset -> option ndarray) : Prop :=
  forall d d' : Dataset,
    (forall tag, tag ∉ scrub_tags -> d !! tag = d' !! tag) ->
    pixel_array d = pixel_array d'.

(** What the result column appends for a given name and gender. *)
Definition result_events (session_state : SessionState) (option : gender)
    (image : ndarray) : list event :=
  [ Estimated image 120;
    BandShown (confidence_low 120) (confidence_high 120);
    DownloadOffered (report (patient_name session_state) option 120)
                    (safe_filename (patient_name session_state)) ].

End Runs.

(** ** Sample inputs *)

Module Samples.
Import Normalizer.

(** A flat 16-bit image, every pixel 500. *)
Definition flat500 : ndarray :=
  {| dtype_of := UInt16; shape := [2; 2]%nat; data := [500; 500; 500; 500] |}.

(** One row [0, 1, 4]: the middle pixel rescales to 63.75. *)
Definition ramp014 : ndarray :=
  {| dtype_of := UInt8; shape := [1; 3]%nat; data := [0; 1; 4] |}.

(** A 32-bit image whose range, 65795, is the first for which
    [255 * range] is not a binary32 number. *)
Definition wide : ndarray :=
  {| dtype_of := UInt32; shape := [1; 2]%nat; data := [0; 65795] |}.

(** A signed 16-bit image over the whole type. *)
Definition signed16 : ndarray :=
  {| dtype_of := Int16; shape := [2; 2]%nat; data := [-32768; 0; 1000; 32767] |}.

(** An 8-bit image that does not use the whole range. *)
Definition dim8 : ndarray :=
  {| dtype_of := UInt8; shape := [1; 4]%nat; data := [10; 11; 13; 20] |}.

(** The record of the specification's scrub scenario, with one more field. *)
Definition jane : Dicom.Dataset :=
  {[ "PatientName"%string := {| Dicom.VR := "PN"; Dicom.value := Dicom.Text (Py.lit "Jane Doe") |};
     "PatientID"%string := {| Dicom.VR := "LO"; Dicom.value := Dicom.Text (Py.lit "123") |};
     "PatientBirthDate"%string := {| Dicom.VR := "DA"; Dicom.value := Dicom.Text (Py.lit "20100101") |};
     "Modality"%string := {| Dicom.VR := "CS"; Dicom.value := Dicom.Text (Py.lit "CR") |} ]}.

(** An upload of that record as a [.dcm] file, and a decoder that yields the
    flat image whatever the data set. *)
Definition jane_dcm : App.upload :=
  {| App.file_ext := "dcm"; App.dcmread := Some jane; App.image_open := None |}.
Definition flat_pixels (dicom_data : Dicom.Dataset) : option ndarray := Some flat500.

(** A PNG upload, and a decoder that reads the modality only. *)
Definition ramp_png : App.upload :=
  {| App.file_ext := "png"; App.dcmread := None; App.image_open := Some ramp014 |}.
Definition by_modality (dicom_data : Dicom.Dataset) : option ndarray :=
  match dicom_data !! "Modality"%string with
  | Some _ => Some signed16
  | None => None
  end.

End Samples.


(** * Properties *)

(** ** binary32 on integers below [2 ^ 24] *)

Module Float32Facts.
Import Float32.

Lemma fexp_eq e : fexp prec emax e = Z.max (e - 24) (-149).
Proof. reflexivity. Qed.

Lemma digits2_pos_size p : digits2_pos p = Pos.size p.
Proof. induction p; simpl; congruence. Qed.

Lemma Zdigits2_log2 z : 0 < z -> Zdigits2 z = Z.log2 z + 1.
Proof.
  destruct z as [|p|p]; try lia. intros _. simpl.
  rewrite digits2_pos_size. destruct p; simpl; lia.
Qed.

Lemma Zdigits2_pos z : 0 < z -> 0 < Zdigits2 z.
Proof.
  intros Hz. rewrite Zdigits2_log2 by done. pose proof (Z.log2_nonneg z). lia.
Qed.

Lemma Zdigits2_mul_pow2 z k :
  0 < z -> 0 <= k -> Zdigits2 (z * 2 ^ k) = Zdigits2 z + k.
Proof.
  intros Hz Hk.
  assert (0 < z * 2 ^ k) by (apply Z.mul_pos_pos; [done | by apply Z.pow_pos_nonneg]).
  rewrite !Zdigits2_log2 by done. rewrite Z.log2_mul_pow2 by lia. lia.
Qed.

Lemma Zdigits2_lt_pow2 z k : 0 < z -> 0 <= k -> z < 2 ^ k -> Zdigits2 z <= k.
Proof.
  intros Hz Hk Hlt. rewrite Zdigits2_log2 by done.
  apply Z.log2_lt_pow2 in Hlt; lia.
Qed.

Lemma Zdigits2_bounds z :
  0 < z -> 2 ^ (Zdigits2 z - 1) <= z < 2 ^ Zdigits2 z.
Proof.
  intros Hz. rewrite Zdigits2_log2 by done.
  replace (Z.log2 z + 1 - 1) with (Z.log2 z) by lia.
  replace (Z.log2 z + 1) with (Z.succ (Z.log2 z)) by lia.
  by apply Z.log2_spec.
Qed.

(** Case analysis on the integer tests left in a goal. *)
Ltac z_cases :=
  simpl; rewrite ?Z.mul_0_r;
  repeat match goal with
    | |- context [?x <=? ?y] => destruct (Z.leb_spec x y)
    | |- context [?x =? ?y] => destruct (Z.eqb_spec x y)
    end; simpl; try done; try lia.

(** One step of [shr] halves the denominator's unit. *)
Lemma shr_1_nonneg m r s :
  0 <= m ->
  shr_1 {| shr_m := m; shr_r := r; shr_s := s |}
  = {| shr_m := m / 2; shr_r := Z.odd m; shr_s := r || s |}.
Proof.
  intros Hm. destruct m as [|p|p]; [done | | lia].
  destruct p as [p|p|]; simpl; f_equal.
  - change (Z.pos p~1) with (2 * Z.pos p + 1).
    apply (Z.div_unique _ _ _ 1); lia.
  - change (Z.pos p~0) with (2 * Z.pos p).
    apply (Z.div_unique _ _ _ 0); lia.
Qed.

Lemma shr_1_rec_of N D :
  0 <= N -> 0 < D -> shr_1 (rec_of N D) = rec_of N (D * 2).
Proof.
  intros HN HD. unfold rec_of.
  rewrite shr_1_nonneg by (apply Z.div_pos; lia).
  pose proof (Z.mod_pos_bound N D HD) as Hrho.
  pose proof (Z.mod_pos_bound (N / D) 2 ltac:(lia)) as Hb.
  rewrite (Z.rem_mul_r N D 2) by lia.
  rewrite <- (Z.div_div N D 2) by lia.
  rewrite Zodd_mod.
  set (rho := N mod D) in *. set (b := (N / D) mod 2) in *.
  assert (b = 0 \/ b = 1) as [Hb0 | Hb1] by lia; [rewrite Hb0 | rewrite Hb1];
    f_equal; z_cases.
Qed.

Lemma iter_shr_1_rec_of p N D :
  0 <= N -> 0 < D -> SpecFloat.iter_pos shr_1 p (rec_of N D) = rec_of N (D * 2 ^ Zpos p).
Proof.
  intros HN. revert D.
  induction p as [p IH|p IH|]; intros D HD; cbn [SpecFloat.iter_pos].
  - assert (0 < 2 ^ Z.pos p) by (by apply Z.pow_pos_nonneg).
    rewrite shr_1_rec_of, IH, IH by nia. f_equal.
    replace (Z.pos p~1) with (2 * Z.pos p + 1) by lia.
    rewrite Z.pow_add_r, Z.pow_twice_r by lia. lia.
  - assert (0 < 2 ^ Z.pos p) by (by apply Z.pow_pos_nonneg).
    rewrite IH, IH by nia. f_equal.
    replace (Z.pos p~0) with (2 * Z.pos p) by lia.
    rewrite Z.pow_twice_r. lia.
  - by apply shr_1_rec_of.
Qed.

Lemma shr_rec_of N D e n :
  0 <= N -> 0 < D ->
  shr (rec_of N D) e n = (rec_of N (D * 2 ^ Z.max 0 n), e + Z.max 0 n).
Proof.
  intros HN HD. destruct n as [|p|p]; simpl.
  - by rewrite Z.mul_1_r, Z.add_0_r.
  - by rewrite iter_shr_1_rec_of.
  - by rewrite Z.mul_1_r, Z.add_0_r.
Qed.

Lemma shr_record_of_loc_exact m : shr_record_of_loc m loc_Exact = rec_of m 1.
Proof. unfold rec_of. by rewrite Z.mod_1_r, Z.div_1_r. Qed.

(** The location that [SFdiv] computes from a Euclidean division is the one
    of the exact quotient. *)
Lemma shr_record_of_loc_div N D :
  0 <= N -> 0 < D ->
  shr_record_of_loc (N / D) (new_location D (N mod D)) = rec_of N D.
Proof.
  intros HN HD. unfold rec_of, new_location, new_location_even, new_location_odd.
  pose proof (Z.mod_pos_bound N D HD) as Hrho.
  set (rho := N mod D) in *.
  destruct (Z.even D) eqn:Hev.
  - destruct (Z.eqb_spec rho 0) as [-> | Hne]; simpl.
    + z_cases.
    + destruct (Z.compare_spec (2 * rho) D); z_cases.
  - assert (Z.odd D = true) as Hodd by (by rewrite <- Z.negb_even, Hev).
    apply Z.odd_spec in Hodd as [k Hk].
    destruct (Z.eqb_spec rho 0) as [-> | Hne]; simpl.
    + z_cases.
    + destruct (Z.compare_spec (2 * rho + 1) D); z_cases.
Qed.

Lemma rne_exact N D : 0 < D -> N mod D = 0 -> rne N D = N / D.
Proof.
  intros HD H0. unfold rne, rec_of. rewrite H0. z_cases.
Qed.

Lemma rne_bound N D :
  0 <= N -> 0 < D -> 2 * N - D <= 2 * (rne N D * D) <= 2 * N + D.
Proof.
  intros HN HD. unfold rne, rec_of.
  pose proof (Z.mod_pos_bound N D HD) as Hrho.
  pose proof (Z.div_mod N D ltac:(lia)) as Hdm.
  set (rho := N mod D) in *. set (q := N / D) in *. simpl.
  destruct (Z.leb_spec D (2 * rho)); simpl;
    repeat match goal with |- context [?x =? 0] => destruct (Z.eqb_spec x 0) end;
    simpl; try destruct (Z.even q); nia.
Qed.

Lemma rne_nonneg N D : 0 <= N -> 0 < D -> 0 <= rne N D.
Proof.
  intros HN HD. pose proof (rne_bound N D HN HD). nia.
Qed.

(** What [binary_round_aux] returns, in terms of the exact value
    [N / D * 2 ^ ex] that its mantissa and location stand for. *)
Lemma binary_round_aux_spec s mx ex lx N D :
  0 <= N -> 0 < D -> shr_record_of_loc mx lx = rec_of N D ->
  let p1 := Z.max 0 (fexp prec emax (Zdigits2 mx + ex) - ex) in
  let M := rne N (D * 2 ^ p1) in
  let e1 := ex + p1 in
  let p2 := Z.max 0 (fexp prec emax (Zdigits2 M + e1) - e1) in
  binary_round_aux prec emax s mx ex lx =
    match M / 2 ^ p2 with
    | Z0 => S754_zero s
    | Zpos m =>
        if e1 + p2 <=? emax - prec then S754_finite s m (e1 + p2)
        else S754_infinity s
    | Zneg _ => S754_nan
    end.
Proof.
  intros HN HD Hrec p1 M e1 p2.
  assert (0 < D * 2 ^ p1) as HD1
    by (apply Z.mul_pos_pos; [done | apply Z.pow_pos_nonneg; lia]).
  assert (0 <= M) as HM by (by apply rne_nonneg).
  unfold binary_round_aux, shr_fexp.
  rewrite Hrec, shr_rec_of by done.
  fold p1. fold (rne N (D * 2 ^ p1)). fold M. fold e1.
  rewrite shr_record_of_loc_exact, shr_rec_of by lia.
  fold p2. cbv beta iota. unfold rec_of at 1. cbn [shr_m]. by rewrite Z.mul_1_l.
Qed.

(** Rounding a mantissa that stands for an integer below [2 ^ 24] is exact:
    the result is that integer, with the exponent the format gives it. *)
Lemma binary_round_aux_exact s mx ex z :
  0 < z < 2 ^ 24 -> ex <= 0 -> Zpos mx = z * 2 ^ (- ex) ->
  binary_round_aux prec emax s (Zpos mx) ex loc_Exact
  = S754_finite s (Z.to_pos (z * 2 ^ (- Z.max ex (Zdigits2 z - 24))))
      (Z.max ex (Zdigits2 z - 24)).
Proof.
  intros Hz Hex Hmx.
  pose proof (Zdigits2_pos z ltac:(lia)) as Hd0.
  pose proof (Zdigits2_lt_pow2 z 24 ltac:(lia) ltac:(lia) ltac:(lia)) as Hd24.
  set (e := Z.max ex (Zdigits2 z - 24)).
  rewrite (binary_round_aux_spec s (Zpos mx) ex loc_Exact (Zpos mx) 1)
    by (try lia; apply shr_record_of_loc_exact).
  assert (Zdigits2 (Z.pos mx) = Zdigits2 z - ex) as Hdm
    by (rewrite Hmx, Zdigits2_mul_pow2 by lia; lia).
  rewrite Hdm, fexp_eq.
  replace (Z.max 0 (Z.max (Zdigits2 z - ex + ex - 24) (-149) - ex)) with (e - ex) by lia.
  replace (ex + (e - ex)) with e by lia.
  assert (0 < 2 ^ (e - ex)) as Hp1 by (apply Z.pow_pos_nonneg; lia).
  assert (0 < 2 ^ (- e)) as Hp2 by (apply Z.pow_pos_nonneg; lia).
  assert (Z.pos mx = z * 2 ^ (- e) * (1 * 2 ^ (e - ex))) as Hsplit.
  { rewrite Hmx, Z.mul_1_l, <- Z.mul_assoc, <- Z.pow_add_r by lia.
    do 2 f_equal. lia. }
  assert (rne (Z.pos mx) (1 * 2 ^ (e - ex)) = z * 2 ^ (- e)) as HM.
  { rewrite rne_exact by (rewrite ?Hsplit, ?Z.mod_mul; lia).
    rewrite Hsplit at 1. rewrite Z.div_mul; lia. }
  rewrite HM, Zdigits2_mul_pow2, fexp_eq by lia.
  replace (Z.max 0 (Z.max (Zdigits2 z + - e + e - 24) (-149) - e)) with 0 by lia.
  rewrite Z.pow_0_r, Z.div_1_r, Z.add_0_r.
  assert (0 < z * 2 ^ (- e)) as Hpos by nia.
  destruct (z * 2 ^ (- e)) as [|q|q] eqn:Hq; try lia.
  simpl Z.to_pos. destruct (Z.leb_spec e (emax - prec)); [done | unfold emax, prec in *; lia].
Qed.

Lemma shl_align_spec mx ex ex' :
  Zpos (fst (shl_align mx ex ex')) = Zpos mx * 2 ^ (ex - Z.min ex ex')
  /\ snd (shl_align mx ex ex') = Z.min ex ex'.
Proof.
  unfold shl_align. destruct (ex' - ex) as [|d|d] eqn:Hd; simpl.
  - replace (Z.min ex ex') with ex by lia. rewrite Z.sub_diag. lia.
  - replace (Z.min ex ex') with ex by lia. rewrite Z.sub_diag. lia.
  - replace (Z.min ex ex') with ex' by lia. split; [| done].
    replace (ex - ex') with (Z.pos d) by lia.
    clear Hd. induction d using Pos.peano_ind.
    + simpl. lia.
    + rewrite Pos.iter_succ, Pos2Z.inj_succ, Z.pow_succ_r by lia.
      rewrite Pos2Z.inj_xO, IHd. lia.
Qed.

(** [binary_round] on an integer below [2 ^ 24] gives its canonical form. *)
Lemma binary_round_exact s mx ex z :
  0 < z < 2 ^ 24 -> ex <= 0 -> Zpos mx = z * 2 ^ (- ex) ->
  binary_round prec emax s mx ex
  = S754_finite s (Z.to_pos (z * 2 ^ (24 - Zdigits2 z))) (Zdigits2 z - 24).
Proof.
  intros Hz Hex Hmx. unfold binary_round.
  pose proof (Zdigits2_pos z ltac:(lia)) as Hd0.
  pose proof (Zdigits2_lt_pow2 z 24 ltac:(lia) ltac:(lia) ltac:(lia)) as Hd24.
  assert (Z.pos (digits2_pos mx) = Zdigits2 z - ex) as Hdm.
  { change (Z.pos (digits2_pos mx)) with (Zdigits2 (Z.pos mx)).
    rewrite Hmx, Zdigits2_mul_pow2 by lia. lia. }
  rewrite Hdm, fexp_eq.
  destruct (shl_align_spec mx ex (Z.max (Zdigits2 z - ex + ex - 24) (-149))) as [Hm He].
  destruct (shl_align _ _ _) as [mz ez]. simpl in Hm, He.
  assert (ez = Z.min ex (Zdigits2 z - 24)) as -> by (clear - He Hd0 Hd24 Hex; lia).
  rewrite (binary_round_aux_exact s mz _ z); try lia.
  - replace (Z.max (Z.min ex (Zdigits2 z - 24)) (Zdigits2 z - 24))
      with (Zdigits2 z - 24) by lia.
    by replace (- (Zdigits2 z - 24)) with (24 - Zdigits2 z) by lia.
  - rewrite Hm, Hmx, <- Z.mul_assoc, <- Z.pow_add_r by lia. do 2 f_equal. lia.
Qed.

Lemma expo_range z : 0 < z < 2 ^ 24 -> -23 <= expo z <= 0.
Proof.
  intros Hz. unfold expo.
  pose proof (Zdigits2_pos z ltac:(lia)).
  pose proof (Zdigits2_lt_pow2 z 24 ltac:(lia) ltac:(lia) ltac:(lia)). lia.
Qed.

Lemma mant_spec z : 0 < z < 2 ^ 24 -> Zpos (mant z) = z * 2 ^ (- expo z).
Proof.
  intros Hz. pose proof (expo_range z Hz). unfold mant.
  assert (0 < 2 ^ (- expo z)) by (apply Z.pow_pos_nonneg; lia).
  rewrite Z2Pos.id; nia.
Qed.

Lemma mant_bounds z : 0 < z < 2 ^ 24 -> 2 ^ 23 <= Zpos (mant z) < 2 ^ 24.
Proof.
  intros Hz. pose proof (expo_range z Hz) as He.
  assert (Zdigits2 (Zpos (mant z)) = 24) as Hd.
  { rewrite mant_spec, Zdigits2_mul_pow2 by lia. unfold expo. lia. }
  pose proof (Zdigits2_bounds (Zpos (mant z)) ltac:(lia)) as Hb.
  by rewrite Hd in Hb.
Qed.

Lemma binary_normalize_exact zd ez z :
  Z.abs z < 2 ^ 24 -> ez <= 0 -> zd = z * 2 ^ (- ez) ->
  binary_normalize prec emax zd ez false = canon z.
Proof.
  intros Hz Hez Hzd.
  assert (0 < 2 ^ (- ez)) as Hp by (apply Z.pow_pos_nonneg; lia).
  destruct z as [|p|p].
  - by subst zd.
  - destruct zd as [|q|q]; try nia. simpl.
    rewrite (binary_round_exact false q ez (Zpos p)) by (try done; lia).
    unfold mant, expo. do 4 f_equal. lia.
  - destruct zd as [|q|q]; try nia. simpl.
    rewrite (binary_round_exact true q ez (Zpos p)) by (try done; lia).
    unfold mant, expo. do 4 f_equal. lia.
Qed.

(** Converting an integer sample of magnitude below [2 ^ 24] is exact. *)
Lemma of_Z_canon z : Z.abs z < 2 ^ 24 -> of_Z z = canon z.
Proof.
  intros Hz. unfold of_Z. apply binary_normalize_exact; [done | lia |].
  rewrite Z.pow_0_r. lia.
Qed.

(** The signed integer mantissa of [canon z] at a lower exponent. *)
Lemma canon_finite z :
  z <> 0 -> Z.abs z < 2 ^ 24 ->
  canon z = S754_finite (z <? 0) (mant (Z.abs z)) (expo (Z.abs z)).
Proof. intros Hz _. by destruct z. Qed.

Lemma cond_Zopp_align z ez :
  z <> 0 -> Z.abs z < 2 ^ 24 -> ez <= expo (Z.abs z) ->
  cond_Zopp (z <? 0) (Zpos (fst (shl_align (mant (Z.abs z)) (expo (Z.abs z)) ez)))
  = z * 2 ^ (- ez).
Proof.
  intros Hz Hlt Hez.
  pose proof (expo_range (Z.abs z) ltac:(lia)) as He.
  destruct (shl_align_spec (mant (Z.abs z)) (expo (Z.abs z)) ez) as [-> _].
  rewrite mant_spec by lia.
  replace (Z.min (expo (Z.abs z)) ez) with ez by lia.
  rewrite <- Z.mul_assoc, <- Z.pow_add_r by lia.
  replace (- expo (Z.abs z) + (expo (Z.abs z) - ez)) with (- ez) by lia.
  unfold cond_Zopp. destruct (Z.ltb_spec z 0); lia.
Qed.

(** Subtraction of two such integers is exact when the difference is itself
    below [2 ^ 24] in magnitude. *)
Lemma sub_canon x y :
  Z.abs x < 2 ^ 24 -> Z.abs y < 2 ^ 24 -> Z.abs (x - y) < 2 ^ 24 ->
  sub (canon x) (canon y) = canon (x - y).
Proof.
  intros Hx Hy Hxy.
  destruct (Z.eq_dec x 0) as [-> | Hx0]; [destruct y; done |].
  destruct (Z.eq_dec y 0) as [-> | Hy0]; [rewrite Z.sub_0_r; by destruct x |].
  rewrite (canon_finite x), (canon_finite y) by done.
  unfold sub, SFsub.
  pose proof (expo_range (Z.abs x) ltac:(lia)).
  pose proof (expo_range (Z.abs y) ltac:(lia)).
  rewrite !cond_Zopp_align by (try done; lia).
  apply binary_normalize_exact; [done | lia | lia].
Qed.

Lemma Zdigits2_mul_below x y :
  0 < x -> 0 < y -> Zdigits2 x + Zdigits2 y - 1 <= Zdigits2 (x * y).
Proof.
  intros Hx Hy. rewrite !Zdigits2_log2 by nia.
  pose proof (Z.log2_mul_below x y Hx Hy). lia.
Qed.

(** A product of two non-negative integers is exact when it stays below
    [2 ^ 24]. *)
Lemma mul_canon x y :
  0 < x < 2 ^ 24 -> 0 <= y -> x * y < 2 ^ 24 ->
  mul (canon x) (canon y) = canon (x * y).
Proof.
  intros Hx Hy Hxy.
  destruct (Z.eq_dec y 0) as [-> | Hy0]; [rewrite Z.mul_0_r; destruct x; try lia; done |].
  assert (0 < y < 2 ^ 24) as Hy' by nia.
  assert (0 < x * y) as Hpos by nia.
  rewrite (canon_finite x), (canon_finite y), (canon_finite (x * y)) by lia.
  rewrite !Z.abs_eq by lia.
  replace (x <? 0) with false by (symmetry; apply Z.ltb_ge; lia).
  replace (y <? 0) with false by (symmetry; apply Z.ltb_ge; lia).
  replace (x * y <? 0) with false by (symmetry; apply Z.ltb_ge; lia).
  unfold mul, SFmul. cbn [xorb].
  pose proof (expo_range x Hx). pose proof (expo_range y Hy').
  pose proof (Zdigits2_mul_below x y ltac:(lia) ltac:(lia)) as Hd.
  rewrite (binary_round_aux_exact false _ _ (x * y)); try lia.
  - replace (Z.max (expo x + expo y) (Zdigits2 (x * y) - 24)) with (expo (x * y))
      by (unfold expo in *; lia).
    done.
  - rewrite Pos2Z.inj_mul, !mant_spec by done.
    replace (- (expo x + expo y)) with (- expo x + - expo y) by lia.
    rewrite Z.pow_add_r by lia. ring.
Qed.

Lemma trunc_finite_nonpos m e :
  e <= 0 -> trunc (S754_finite false m e) = Zpos m / 2 ^ (- e).
Proof.
  intros He. destruct e as [|p|p]; try lia; cbn [trunc].
  - change (2 ^ (- 0)) with 1. change (2 ^ 0) with 1. by rewrite Z.div_1_r, Z.mul_1_r.
  - done.
Qed.

(** The quotient of [SFdiv], truncated, is the integer quotient: the float
    nearest to [n / d] cannot reach the next integer because [n / d] stays
    at least [1 / d] below it and the binary32 grid under 256 is finer. *)
Lemma div_canon n d :
  0 <= n < 2 ^ 24 -> 0 < d < 2 ^ 17 -> n < 256 * d ->
  trunc (div (canon n) (canon d)) = n / d.
Proof.
  intros Hn Hd Hnd.
  destruct (Z.eq_dec n 0) as [-> | Hn0]; [destruct d; try lia; done |].
  assert (0 < n < 2 ^ 24) as Hn' by lia. clear Hn Hn0.
  assert (0 < d < 2 ^ 24) as Hd' by lia.
  rewrite (canon_finite n), (canon_finite d) by lia.
  rewrite !Z.abs_eq by lia.
  replace (n <? 0) with false by (symmetry; apply Z.ltb_ge; lia).
  replace (d <? 0) with false by (symmetry; apply Z.ltb_ge; lia).
  pose proof (expo_range n Hn') as Hen. pose proof (expo_range d Hd') as Hed.
  pose proof (mant_spec n Hn') as Hmn. pose proof (mant_spec d Hd') as Hmd.
  pose proof (mant_bounds n Hn') as Hbn. pose proof (mant_bounds d Hd') as Hbd.
  set (mn := mant n) in *. set (md := mant d) in *.
  set (en := expo n) in *. set (ed := expo d) in *.
  assert (Zdigits2 (Zpos mn) = 24) as Hdn.
  { rewrite Hmn, Zdigits2_mul_pow2 by lia. unfold en, expo. lia. }
  assert (Zdigits2 (Zpos md) = 24) as Hdd.
  { rewrite Hmd, Zdigits2_mul_pow2 by lia. unfold ed, expo. lia. }
  (* the exponents of numerator and denominator differ by at most 8 *)
  assert (en - ed <= 8) as Hgap.
  { pose proof (Zdigits2_bounds n ltac:(lia)) as Bn.
    pose proof (Zdigits2_bounds d ltac:(lia)) as Bd.
    pose proof (Zdigits2_pos n ltac:(lia)). pose proof (Zdigits2_pos d ltac:(lia)).
    destruct (Z.le_gt_cases (Zdigits2 n) (Zdigits2 d + 8)) as [|Hgt];
      [unfold en, ed, expo; lia |].
    assert (2 ^ (Zdigits2 d + 8) <= 2 ^ (Zdigits2 n - 1)) by (apply Z.pow_le_mono_r; lia).
    rewrite Z.pow_add_r in * by lia. change (2 ^ 8) with 256 in *. lia. }
  unfold div, SFdiv, SFdiv_core_binary. rewrite Hdn, Hdd, fexp_eq.
  replace (Z.min (Z.max (24 + en - (24 + ed) - 24) (-149)) (en - ed))
    with (en - ed - 24) by lia.
  replace (en - ed - (en - ed - 24)) with 24 by lia.
  set (e' := en - ed - 24).
  set (N := Z.shiftl (Zpos mn) 24).
  assert (N = Zpos mn * 2 ^ 24) as HN by (unfold N; by rewrite Z.shiftl_mul_pow2).
  assert (Z.div_eucl N (Zpos md) = (N / Zpos md, N mod Zpos md)) as ->
    by (unfold Z.div, Z.modulo; by destruct (Z.div_eucl N (Zpos md))).
  cbn [xorb].
  rewrite (binary_round_aux_spec false _ e' _ N (Zpos md))
    by (try lia; apply shr_record_of_loc_div; lia).
  set (q := N / Zpos md).
  set (p1 := Z.max 0 (fexp prec emax (Zdigits2 q + e') - e')).
  set (D1 := Zpos md * 2 ^ p1).
  set (M := rne N D1).
  set (e1 := e' + p1).
  set (p2 := Z.max 0 (fexp prec emax (Zdigits2 M + e1) - e1)).
  (* the quotient mantissa and the exponent after the first shift *)
  assert (Zpos mn < Zpos md * 2 ^ (8 + ed - en)) as Hscaled.
  { assert (0 < 2 ^ (- en)) by (apply Z.pow_pos_nonneg; lia).
    rewrite Hmn, Hmd, <- Z.mul_assoc, <- Z.pow_add_r by lia.
    replace (- ed + (8 + ed - en)) with (8 + - en) by lia.
    rewrite Z.pow_add_r by lia. change (2 ^ 8) with 256. nia. }
  assert (0 < q < 2 ^ (8 - e')) as Hq.
  { split.
    - apply Z.lt_le_trans with (2 ^ 23); [done |].
      apply Z.div_le_lower_bound; [lia |].
      rewrite HN. change (2 ^ 24) with (2 * 2 ^ 23) in *. nia.
    - apply Z.div_lt_upper_bound; [lia |].
      replace (8 - e') with (8 + ed - en + 24) by (unfold e'; lia).
      rewrite Z.pow_add_r, HN by lia. nia. }
  pose proof (Zdigits2_lt_pow2 q (8 - e') ltac:(lia) ltac:(lia) ltac:(lia)) as Hdq.
  pose proof (Zdigits2_pos q ltac:(lia)) as Hdq0.
  assert (e' <= e1 <= -16 /\ 0 <= p1) as (He1 & Hp1)
    by (unfold e1, p1; rewrite fexp_eq; unfold e'; lia).
  set (T := 2 ^ (- e1)).
  assert (2 ^ 16 <= T) as HT by (apply Z.pow_le_mono_r; lia).
  assert (0 < 2 ^ p1) as Hpp1 by (apply Z.pow_pos_nonneg; lia).
  assert (0 < D1) as HD1 by (unfold D1; nia).
  assert (N * d = n * D1 * T) as Hval.
  { assert (2 ^ p1 * T = 2 ^ (- e')) as H1
      by (unfold T; rewrite <- Z.pow_add_r by lia; f_equal; unfold e1; lia).
    assert (2 ^ (- ed) * 2 ^ (- e') = 2 ^ (- en) * 2 ^ 24) as H2
      by (rewrite <- !Z.pow_add_r by lia; f_equal; unfold e'; lia).
    rewrite HN, Hmn. unfold D1. rewrite Hmd.
    transitivity (n * d * (2 ^ (- en) * 2 ^ 24)); [ring |].
    rewrite <- H2, <- H1. ring. }
  pose proof (rne_bound N D1 ltac:(lia) HD1) as HM. fold M in HM.
  pose proof (rne_nonneg N D1 ltac:(lia) HD1) as HM0. fold M in HM0.
  set (K := n / d).
  pose proof (Z.div_mod n d ltac:(lia)) as Hdm. fold K in Hdm.
  pose proof (Z.mod_pos_bound n d ltac:(lia)) as Hrem.
  assert (0 <= K <= 255) as HK.
  { split; [apply Z.div_pos; lia |].
    assert (K < 256) by (apply Z.div_lt_upper_bound; lia). lia. }
  assert (K * T <= M < (K + 1) * T) as Hbr.
  { assert (0 < D1 * d) as Hdd1 by nia.
    assert (0 <= (n - K * d) * (D1 * T)) as Hlo by (apply Z.mul_nonneg_nonneg; nia).
    assert (0 <= (K * d + d - 1 - n) * (D1 * T)) as Hhi
      by (apply Z.mul_nonneg_nonneg; nia).
    assert (0 <= (2 * (M * D1) - (2 * N - D1)) * d) as Hl2
      by (apply Z.mul_nonneg_nonneg; lia).
    assert (0 <= (2 * N + D1 - 2 * (M * D1)) * d) as Hh2
      by (apply Z.mul_nonneg_nonneg; lia).
    split.
    - destruct (Z.le_gt_cases (K * T) M) as [|Hc]; [done | exfalso].
      assert (0 <= (K * T - (M + 1)) * (D1 * d)) by (apply Z.mul_nonneg_nonneg; lia).
      nia.
    - destruct (Z.lt_ge_cases M ((K + 1) * T)) as [|Hc]; [done | exfalso].
      assert (0 <= (M - (K + 1) * T) * (D1 * d)) by (apply Z.mul_nonneg_nonneg; lia).
      assert (0 <= (2 * T - d - 1) * D1)
        by (apply Z.mul_nonneg_nonneg; change (2 ^ 17) with (2 * 2 ^ 16) in *; lia).
      nia. }
  (* the second shift does not pass the binary point *)
  assert (0 <= p2 <= - e1) as Hp2.
  { unfold p2. rewrite fexp_eq. split; [lia |].
    destruct (Z.eq_dec M 0) as [-> | HMne]; [simpl; lia |].
    assert (M < 2 ^ (8 - e1)).
    { replace (8 - e1) with (8 + - e1) by lia.
      rewrite (Z.pow_add_r 2 8 (- e1)) by lia. fold T. change (2 ^ 8) with 256. nia. }
    pose proof (Zdigits2_lt_pow2 M (8 - e1) ltac:(lia) ltac:(lia) ltac:(lia)). lia. }
  assert (0 < 2 ^ p2) as Hpp2 by (apply Z.pow_pos_nonneg; lia).
  assert (2 ^ p2 * 2 ^ (- (e1 + p2)) = T) as HT2
    by (unfold T; rewrite <- Z.pow_add_r by lia; f_equal; lia).
  assert (0 < 2 ^ (- (e1 + p2))) as Hpp3 by (apply Z.pow_pos_nonneg; lia).
  assert (M / 2 ^ p2 / 2 ^ (- (e1 + p2)) = K) as Hres.
  { rewrite Z.div_div, HT2 by lia. symmetry.
    apply (Z.div_unique M T K (M - K * T)); lia. }
  destruct (M / 2 ^ p2) as [|m|m] eqn:HMq.
  - rewrite Z.div_0_l in Hres by lia. by rewrite <- Hres.
  - destruct (Z.leb_spec (e1 + p2) (emax - prec)); [| unfold emax, prec in *; lia].
    rewrite trunc_finite_nonpos by lia. done.
  - pose proof (Z.div_pos M (2 ^ p2) HM0 Hpp2). lia.
Qed.

Lemma compare_canon_pos x y :
  0 < x < 2 ^ 24 -> 0 < y < 2 ^ 24 ->
  match expo x ?= expo y with
  | Eq => Pos.compare_cont Eq (mant x) (mant y)
  | c => c
  end = (x ?= y).
Proof.
  intros Hx Hy.
  pose proof (Zdigits2_bounds x ltac:(lia)) as Bx.
  pose proof (Zdigits2_bounds y ltac:(lia)) as By.
  pose proof (expo_range x Hx). pose proof (expo_range y Hy).
  destruct (Z.compare_spec (expo x) (expo y)) as [Heq | Hlt | Hgt].
  - change (Pos.compare_cont Eq (mant x) (mant y)) with (Zpos (mant x) ?= Zpos (mant y)).
    rewrite !mant_spec, Heq by done.
    assert (0 < 2 ^ (- expo y)) by (apply Z.pow_pos_nonneg; lia).
    destruct (Z.compare_spec x y) as [-> | |]; [apply Z.compare_refl | |].
    + apply Z.compare_lt_iff. nia.
    + apply Z.compare_gt_iff. nia.
  - symmetry. apply Z.compare_lt_iff.
    assert (2 ^ Zdigits2 x <= 2 ^ (Zdigits2 y - 1))
      by (apply Z.pow_le_mono_r; unfold expo in *; lia).
    lia.
  - symmetry. apply Z.compare_gt_iff.
    assert (2 ^ Zdigits2 y <= 2 ^ (Zdigits2 x - 1))
      by (apply Z.pow_le_mono_r; unfold expo in *; lia).
    lia.
Qed.

(** On integers below [2 ^ 24] the float order is the integer order. *)
Lemma SFcompare_canon x y :
  Z.abs x < 2 ^ 24 -> Z.abs y < 2 ^ 24 ->
  SFcompare (canon x) (canon y) = Some (x ?= y).
Proof.
  intros Hx Hy. destruct x as [|p|p], y as [|q|q]; try done.
  - cbn [canon SFcompare]. f_equal.
    rewrite <- (compare_canon_pos (Zpos p) (Zpos q)) by lia.
    by destruct (expo (Z.pos p) ?= expo (Z.pos q)).
  - cbn [canon SFcompare]. f_equal.
    change (Z.neg p ?= Z.neg q) with (CompOpp (Z.pos p ?= Z.pos q)).
    rewrite <- (compare_canon_pos (Zpos p) (Zpos q)) by lia.
    by destruct (expo (Z.pos p) ?= expo (Z.pos q)).
Qed.

Lemma leb_canon x y :
  Z.abs x < 2 ^ 24 -> Z.abs y < 2 ^ 24 -> leb (canon x) (canon y) = (x <=? y).
Proof.
  intros Hx Hy. unfold leb, SFleb. rewrite SFcompare_canon by done.
  unfold Z.leb. by destruct (x ?= y).
Qed.

Lemma is_nan_canon z : is_nan (canon z) = false.
Proof. by destruct z. Qed.

Lemma minimum_canon x y :
  Z.abs x < 2 ^ 24 -> Z.abs y < 2 ^ 24 ->
  minimum (canon x) (canon y) = canon (Z.min x y).
Proof.
  intros Hx Hy. unfold minimum. rewrite leb_canon, is_nan_canon, orb_false_r by done.
  destruct (Z.leb_spec x y); f_equal; lia.
Qed.

Lemma maximum_canon x y :
  Z.abs x < 2 ^ 24 -> Z.abs y < 2 ^ 24 ->
  maximum (canon x) (canon y) = canon (Z.max x y).
Proof.
  intros Hx Hy. unfold maximum. rewrite leb_canon, is_nan_canon, orb_false_r by done.
  destruct (Z.leb_spec y x); f_equal; lia.
Qed.

End Float32Facts.

(** ** The normalizer *)

Module NormalizerFacts.
Import Float32 Float32Facts Normalizer.

Lemma fold_min_spec r x :
  let m := fold_left Z.min r x in
  m ∈ x :: r /\ Forall (fun y => m <= y) (x :: r).
Proof.
  revert x. induction r as [|y r IH]; intros x; simpl.
  - split; [apply list_elem_of_singleton; done | by repeat constructor].
  - destruct (IH (Z.min x y)) as [Hin Hall].
    apply Forall_cons in Hall as [Hm Hall]. split.
    + apply elem_of_cons in Hin as [-> | Hin].
      * destruct (Z.min_spec x y) as [[_ ->] | [_ ->]];
          [apply list_elem_of_here | apply list_elem_of_further, list_elem_of_here].
      * by do 2 apply list_elem_of_further.
    + repeat constructor; try done; lia.
Qed.

Lemma fold_max_spec r x :
  let m := fold_left Z.max r x in
  m ∈ x :: r /\ Forall (fun y => y <= m) (x :: r).
Proof.
  revert x. induction r as [|y r IH]; intros x; simpl.
  - split; [apply list_elem_of_singleton; done | by repeat constructor].
  - destruct (IH (Z.max x y)) as [Hin Hall].
    apply Forall_cons in Hall as [Hm Hall]. split.
    + apply elem_of_cons in Hin as [-> | Hin].
      * destruct (Z.max_spec x y) as [[_ ->] | [_ ->]];
          [apply list_elem_of_further, list_elem_of_here | apply list_elem_of_here].
      * by do 2 apply list_elem_of_further.
    + repeat constructor; try done; lia.
Qed.

Lemma np_min_spec l m :
  np_min l = Some m <-> m ∈ l /\ Forall (fun y => m <= y) l.
Proof.
  destruct l as [|x r]; simpl.
  - split; [done | intros [H _]; by apply elem_of_nil in H].
  - pose proof (fold_min_spec r x) as [Hin Hall]. split.
    + by intros [= <-].
    + intros [Hin' Hall']. f_equal.
      rewrite Forall_forall in Hall, Hall'.
      specialize (Hall _ Hin'). specialize (Hall' _ Hin). lia.
Qed.

Lemma np_max_spec l m :
  np_max l = Some m <-> m ∈ l /\ Forall (fun y => y <= m) l.
Proof.
  destruct l as [|x r]; simpl.
  - split; [done | intros [H _]; by apply elem_of_nil in H].
  - pose proof (fold_max_spec r x) as [Hin Hall]. split.
    + by intros [= <-].
    + intros [Hin' Hall']. f_equal.
      rewrite Forall_forall in Hall, Hall'.
      specialize (Hall _ Hin'). specialize (Hall' _ Hin). lia.
Qed.

Lemma np_min_is_Some l : l <> [] -> is_Some (np_min l).
Proof. destruct l; [done | by eexists]. Qed.

Lemma np_max_is_Some l : l <> [] -> is_Some (np_max l).
Proof. destruct l; [done | by eexists]. Qed.

Lemma fold_minimum_canon r x :
  Forall fits_float32 (x :: r) ->
  fold_left minimum (map of_Z r) (canon x) = canon (fold_left Z.min r x).
Proof.
  revert x. induction r as [|y r IH]; intros x Hfit; [done |].
  apply Forall_cons in Hfit as [Hx Hfit]. apply Forall_cons in Hfit as [Hy Hfit].
  unfold fits_float32 in *. simpl.
  rewrite of_Z_canon, minimum_canon by done.
  apply IH. constructor; [unfold fits_float32; lia | done].
Qed.

Lemma fold_maximum_canon r x :
  Forall fits_float32 (x :: r) ->
  fold_left maximum (map of_Z r) (canon x) = canon (fold_left Z.max r x).
Proof.
  revert x. induction r as [|y r IH]; intros x Hfit; [done |].
  apply Forall_cons in Hfit as [Hx Hfit]. apply Forall_cons in Hfit as [Hy Hfit].
  unfold fits_float32 in *. simpl.
  rewrite of_Z_canon, maximum_canon by done.
  apply IH. constructor; [unfold fits_float32; lia | done].
Qed.

Lemma np_min_f32_canon l :
  Forall fits_float32 l -> np_min_f32 (map of_Z l) = canon <$> np_min l.
Proof.
  destruct l as [|x r]; [done |]. intros Hfit. simpl.
  rewrite of_Z_canon by (by apply Forall_cons in Hfit as [? _]).
  by rewrite fold_minimum_canon.
Qed.

Lemma np_max_f32_canon l :
  Forall fits_float32 l -> np_max_f32 (map of_Z l) = canon <$> np_max l.
Proof.
  destruct l as [|x r]; [done |]. intros Hfit. simpl.
  rewrite of_Z_canon by (by apply Forall_cons in Hfit as [? _]).
  by rewrite fold_maximum_canon.
Qed.

Lemma floor_scale_range lo hi x :
  lo <= x <= hi -> lo < hi -> 0 <= floor_scale lo hi x <= 255.
Proof.
  intros Hx Hlt. unfold floor_scale. split.
  - apply Z.div_pos; lia.
  - assert (255 * (x - lo) / (hi - lo) < 256)
      by (apply Z.div_lt_upper_bound; lia).
    lia.
Qed.

(** One pixel: with every intermediate value exact in binary32, the float
    pipeline followed by the cast is the integer quotient. *)
Lemma rescale_exact lo hi x :
  fits_float32 lo -> fits_float32 hi -> lo <= x <= hi -> lo < hi ->
  255 * (hi - lo) < 2 ^ 24 ->
  to_uint8 (rescale (canon lo) (canon hi) (of_Z x)) = floor_scale lo hi x.
Proof.
  unfold fits_float32. intros Hlo Hhi Hx Hlt Hrange.
  unfold rescale, to_uint8.
  rewrite (of_Z_canon x), (of_Z_canon 255) by (try done; lia).
  rewrite !sub_canon by lia.
  rewrite mul_canon by (try done; lia).
  rewrite div_canon by (change (2 ^ 17) with 131072; change (2 ^ 24) with 16777216 in *; lia).
  apply Z.mod_small. pose proof (floor_scale_range lo hi x Hx Hlt).
  unfold floor_scale in *. lia.
Qed.

(** The non-flat branch in closed form, for inputs binary32 holds exactly. *)
Lemma normalize_exact image lo hi :
  Forall fits_float32 (data image) ->
  np_min (data image) = Some lo -> np_max (data image) = Some hi ->
  lo < hi -> 255 * (hi - lo) < 2 ^ 24 ->
  normalize_to_uint8 image
  = Some {| dtype_of := UInt8; shape := shape image;
            data := map (floor_scale lo hi) (data image) |}.
Proof.
  intros Hfit Hmin Hmax Hlt Hrange. unfold normalize_to_uint8.
  rewrite Hmin, Hmax. simpl.
  destruct (decide (hi = lo)) as [-> | _]; [lia |].
  rewrite np_min_f32_canon, np_max_f32_canon, Hmin, Hmax by done. simpl.
  do 2 f_equal. rewrite !map_map.
  apply np_min_spec in Hmin as [Hlo_in Hlo]. apply np_max_spec in Hmax as [Hhi_in Hhi].
  rewrite Forall_forall in Hfit, Hlo, Hhi.
  apply map_ext_in. intros x Hx%list_elem_of_In.
  apply rescale_exact; auto.
Qed.

Lemma map_zero_replicate (l : list Z) :
  map (fun _ => 0) l = replicate (length l) 0.
Proof. induction l; simpl; congruence. Qed.

(** The flat branch: no float is ever computed. *)
Lemma normalize_flat image c :
  data image <> [] -> Forall (fun x => x = c) (data image) ->
  normalize_to_uint8 image = Some (zeros_like_uint8 image).
Proof.
  intros Hne Hflat. unfold normalize_to_uint8.
  assert (c ∈ data image) as Hin.
  { destruct (data image) as [|x r]; [done |].
    apply Forall_cons in Hflat as [-> _]. apply list_elem_of_here. }
  assert (np_max (data image) = Some c) as ->.
  { apply np_max_spec. split; [done |].
    eapply Forall_impl; [exact Hflat | simpl; lia]. }
  assert (np_min (data image) = Some c) as ->.
  { apply np_min_spec. split; [done |].
    eapply Forall_impl; [exact Hflat | simpl; lia]. }
  simpl. by destruct (decide (c = c)).
Qed.

Lemma floor_scale_min_max lo hi l :
  np_min l = Some lo -> np_max l = Some hi -> lo < hi ->
  np_min (map (floor_scale lo hi) l) = Some 0 /\
  np_max (map (floor_scale lo hi) l) = Some 255.
Proof.
  intros [Hlo_in Hlo]%np_min_spec [Hhi_in Hhi]%np_max_spec Hlt.
  rewrite Forall_forall in Hlo, Hhi.
  assert (forall y, y ∈ map (floor_scale lo hi) l -> 0 <= y <= 255) as Hrange.
  { intros y (x & -> & Hx)%list_elem_of_fmap.
    apply floor_scale_range; auto. }
  split.
  - apply np_min_spec. split.
    + apply list_elem_of_fmap. exists lo. split; [| done].
      unfold floor_scale. by rewrite Z.sub_diag, Z.mul_0_r, Z.div_0_l by lia.
    + apply Forall_forall. intros y Hy. apply Hrange in Hy. lia.
  - apply np_max_spec. split.
    + apply list_elem_of_fmap. exists hi. split; [| done].
      unfold floor_scale. by rewrite Z.div_mul by lia.
    + apply Forall_forall. intros y Hy. apply Hrange in Hy. lia.
Qed.

Lemma floor_scale_id y : floor_scale 0 255 y = y.
Proof.
  unfold floor_scale. rewrite Z.sub_0_r, Z.mul_comm. apply Z.div_mul. lia.
Qed.

(** Re-applying the normalizer to its own output changes nothing, for
    8-bit inputs. *)
Lemma normalize_twice image :
  data image <> [] -> Forall (fun x => 0 <= x <= 255) (data image) ->
  exists once, normalize_to_uint8 image = Some once /\
               normalize_to_uint8 once = Some once.
Proof.
  intros Hne Hbyte.
  destruct (np_min_is_Some _ Hne) as [lo Hmin].
  destruct (np_max_is_Some _ Hne) as [hi Hmax].
  pose proof Hmin as [Hlo_in Hlo]%np_min_spec.
  pose proof Hmax as [Hhi_in Hhi]%np_max_spec.
  rewrite Forall_forall in Hbyte, Hlo.
  pose proof (Hbyte _ Hlo_in). pose proof (Hbyte _ Hhi_in).
  pose proof (Hlo _ Hhi_in).
  destruct (Z.eq_dec lo hi) as [<- | Hneq].
  - (* flat input, flat all-zero output *)
    exists (zeros_like_uint8 image). split.
    + apply (normalize_flat image lo); [done |].
      rewrite Forall_forall in Hhi. apply Forall_forall. intros x Hx.
      specialize (Hlo _ Hx). specialize (Hhi _ Hx). lia.
    + rewrite (normalize_flat _ 0).
      * unfold zeros_like_uint8. simpl. by rewrite map_map.
      * simpl. by destruct (data image).
      * simpl. apply Forall_forall. by intros x (? & -> & _)%list_elem_of_fmap.
  - eexists. split.
    + apply (normalize_exact image lo hi); try done; try lia.
      apply Forall_forall. intros x Hx%Hbyte. unfold fits_float32. lia.
    + destruct (floor_scale_min_max lo hi (data image)) as [Hmin' Hmax']; [done.. | lia |].
      rewrite (normalize_exact _ 0 255); simpl; try done.
      * rewrite map_map. do 2 f_equal. apply map_ext. intros x. apply floor_scale_id.
      * apply Forall_forall. intros y (x & -> & Hx)%list_elem_of_fmap.
        pose proof (floor_scale_range lo hi x). rewrite Forall_forall in Hhi.
        specialize (Hlo _ Hx). specialize (Hhi _ Hx). unfold fits_float32. lia.
Qed.

(** Every image of an 8- or 16-bit type is within the exact range. *)
Lemma narrow_image_exact image lo hi :
  narrow (dtype_of image) = true -> well_typed image ->
  np_min (data image) = Some lo -> np_max (data image) = Some hi ->
  Forall fits_float32 (data image) /\ 255 * (hi - lo) < 2 ^ 24.
Proof.
  unfold well_typed. intros Hnarrow Hwt [Hlo _]%np_min_spec [Hhi _]%np_max_spec.
  rewrite Forall_forall in Hwt. split.
  - apply Forall_forall. intros x Hx%Hwt. unfold fits_float32.
    destruct (dtype_of image); try done; simpl in Hx; lia.
  - apply Hwt in Hlo. apply Hwt in Hhi.
    destruct (dtype_of image); try done; simpl in Hlo, Hhi; lia.
Qed.

(** *** The claims about [normalize_to_uint8] *)

(** C1.  For every non-empty array whose samples are all equal,
    [normalize_to_uint8] returns an array of the same shape, of element type
    [uint8], all of whose elements are zero. *)
Theorem flat_image_is_zeroed image c :
  data image <> [] -> Forall (fun x => x = c) (data image) ->
  exists out,
    normalize_to_uint8 image = Some out /\
    dtype_of out = UInt8 /\ shape out = shape image /\
    length (data out) = length (data image) /\
    Forall (fun y => y = 0) (data out).
Proof.
  intros Hne Hflat. exists (zeros_like_uint8 image).
  split; [by apply (normalize_flat image c) |].
  unfold zeros_like_uint8. simpl. rewrite map_zero_replicate.
  repeat split; [by rewrite length_replicate |].
  apply Forall_forall. by intros y [-> _]%elem_of_replicate.
Qed.

Lemma flat_image_is_zeroed_witness :
  exists out,
    normalize_to_uint8 Samples.flat500 = Some out /\
    dtype_of out = UInt8 /\ shape out = [2; 2]%nat /\
    length (data out) = 4%nat /\ Forall (fun y => y = 0) (data out).
Proof.
  apply (flat_image_is_zeroed Samples.flat500 500).
  - simpl. discriminate.
  - simpl. repeat constructor.
Defined.

(** C2, as the code has it.  For every array whose samples binary32 holds
    exactly ([|x| < 2 ^ 24]) and whose minimum [lo] and maximum [hi] satisfy
    [lo < hi] and [255 * (hi - lo) < 2 ^ 24] (every 8- and 16-bit image),
    each output element is [255 * (x - lo) / (hi - lo)] with the fraction
    discarded (the cast truncates, it does not round), a [uint8] value
    computed from the element at the same position alone. *)
Theorem rescale_truncates_per_element image lo hi :
  Forall fits_float32 (data image) ->
  np_min (data image) = Some lo -> np_max (data image) = Some hi ->
  lo < hi -> 255 * (hi - lo) < 2 ^ 24 ->
  exists out,
    normalize_to_uint8 image = Some out /\
    dtype_of out = UInt8 /\ shape out = shape image /\
    length (data out) = length (data image) /\
    forall (i : nat) x, data image !! i = Some x ->
      data out !! i = Some (255 * (x - lo) / (hi - lo)) /\
      0 <= 255 * (x - lo) / (hi - lo) <= 255.
Proof.
  intros Hfit Hmin Hmax Hlt Hrange. eexists. split.
  { by apply (normalize_exact image lo hi). }
  simpl. rewrite length_map. do 3 (split; [done |]).
  intros i x Hx. split.
  - change (map (floor_scale lo hi) (data image)) with (floor_scale lo hi <$> data image).
    by rewrite list_lookup_fmap, Hx.
  - apply (floor_scale_range lo hi x); [| done].
    apply np_min_spec in Hmin as [_ Hlo]. apply np_max_spec in Hmax as [_ Hhi].
    rewrite Forall_forall in Hlo, Hhi.
    apply list_elem_of_lookup_2 in Hx. auto.
Qed.

Lemma rescale_truncates_per_element_witness :
  exists out,
    normalize_to_uint8 Samples.signed16 = Some out /\
    dtype_of out = UInt8 /\ shape out = [2; 2]%nat /\
    length (data out) = 4%nat /\
    forall (i : nat) x, data Samples.signed16 !! i = Some x ->
      data out !! i = Some (255 * (x - -32768) / (32767 - -32768)) /\
      0 <= 255 * (x - -32768) / (32767 - -32768) <= 255.
Proof.
  apply (rescale_truncates_per_element Samples.signed16 (-32768) 32767).
  - simpl. repeat constructor.
  - reflexivity.
  - reflexivity.
  - lia.
  - reflexivity.
Defined.

(** C2 as the specification words it fails: the middle pixel of [0, 1, 4]
    is 63.75 before the cast; rounding gives 64, the code returns 63. *)
Lemma rescale_by_rounding_counterexample :
  ~ rescales_by_rounding Samples.ramp014.
Proof.
  intros Hspec.
  destruct (Hspec 0 4 eq_refl eq_refl ltac:(lia)) as (out & Hout & Hdata).
  vm_compute in Hout. injection Hout as <-.
  vm_compute in Hdata. discriminate.
Qed.

(** C3, as the code has it.  Under the same exactness conditions as C2
    ([|x| < 2 ^ 24] for every sample, [lo < hi], [255 * (hi - lo) < 2 ^ 24]),
    the returned array has minimum 0 and maximum 255. *)
Theorem exact_range_spans_0_255 image lo hi :
  Forall fits_float32 (data image) ->
  np_min (data image) = Some lo -> np_max (data image) = Some hi ->
  lo < hi -> 255 * (hi - lo) < 2 ^ 24 ->
  exists out,
    normalize_to_uint8 image = Some out /\
    np_min (data out) = Some 0 /\ np_max (data out) = Some 255.
Proof.
  intros Hfit Hmin Hmax Hlt Hrange. eexists. split.
  { by apply (normalize_exact image lo hi). }
  simpl. by apply floor_scale_min_max.
Qed.

Lemma exact_range_spans_0_255_witness :
  exists out,
    normalize_to_uint8 Samples.dim8 = Some out /\
    np_min (data out) = Some 0 /\ np_max (data out) = Some 255.
Proof.
  apply (exact_range_spans_0_255 Samples.dim8 10 20).
  - simpl. repeat constructor.
  - reflexivity.
  - reflexivity.
  - lia.
  - reflexivity.
Defined.

(** C3 as the specification words it fails: for the range 65795 the product
    [255 * 65795] is rounded by binary32, the quotient falls just under 255
    and the brightest pixel becomes 254. *)
Lemma spans_full_range_counterexample :
  ~ spans_full_range Samples.wide.
Proof.
  intros Hspec.
  destruct (Hspec 0 65795 eq_refl eq_refl ltac:(lia)) as (out & Hout & _ & Hmax).
  vm_compute in Hout. injection Hout as <-.
  vm_compute in Hmax. discriminate.
Qed.

(** C4.  For every non-empty array whose elements lie in [0, 255], applying
    [normalize_to_uint8] twice gives the result of applying it once, up to
    rounding: same element type, same shape, elements at most one unit
    apart. *)
Theorem renormalize_within_rounding image :
  data image <> [] -> Forall (fun x => 0 <= x <= 255) (data image) ->
  exists once twice,
    normalize_to_uint8 image = Some once /\
    normalize_to_uint8 once = Some twice /\
    close_up_to_rounding twice once.
Proof.
  intros Hne Hbyte.
  destruct (normalize_twice image Hne Hbyte) as (once & H1 & H2).
  exists once, once. repeat split; try done.
  apply Forall2_same_length_lookup. split; [done |].
  intros i x y Hx Hy. rewrite Hx in Hy. injection Hy as <-.
  rewrite Z.sub_diag. simpl. lia.
Qed.

Lemma renormalize_within_rounding_witness :
  exists once twice,
    normalize_to_uint8 Samples.dim8 = Some once /\
    normalize_to_uint8 once = Some twice /\
    close_up_to_rounding twice once.
Proof.
  apply (renormalize_within_rounding Samples.dim8).
  - simpl. discriminate.
  - simpl. repeat constructor; lia.
Defined.

End NormalizerFacts.

(** ** The metadata scrub *)

Module DicomFacts.
Import Dicom.

Lemma contains_spec (dicom_data : Dataset) tag :
  contains dicom_data tag = true <-> is_Some (dicom_data !! tag).
Proof. unfold contains. apply bool_decide_eq_true. Qed.

(** The loop never raises, empties the listed fields that are present and
    touches nothing else. *)
Lemma scrub_from_spec tags (dicom_data : Dataset) :
  exists scrubbed : Dataset,
    scrub_from tags dicom_data = Some scrubbed /\
    forall tag,
      scrubbed !! tag
      = if decide (tag ∈ tags) then emptied <$> dicom_data !! tag
        else dicom_data !! tag.
Proof.
  revert dicom_data. induction tags as [|tag0 rest IH]; intros dicom_data.
  - exists dicom_data. split; [done |]. intros tag.
    destruct (decide (tag ∈ [])) as [Hin | _]; [by apply elem_of_nil in Hin | done].
  - cbn [scrub_from]. destruct (contains dicom_data tag0) eqn:Hc.
    + apply contains_spec in Hc as [el Hel].
      unfold set_value, data_element. rewrite Hel. cbn.
      change {| VR := VR el; value := Text [] |} with (emptied el).
      destruct (IH (<[tag0 := emptied el]> dicom_data)) as (scrubbed & -> & Hlook).
      exists scrubbed. split; [done |]. intros tag. rewrite Hlook.
      destruct (decide (tag = tag0)) as [-> | Hne].
      * rewrite lookup_insert_eq, Hel. cbn.
        destruct (decide (tag0 ∈ rest)), (decide (tag0 ∈ tag0 :: rest)) as [| Hn];
          try done; destruct Hn; apply list_elem_of_here.
      * rewrite lookup_insert_ne by done.
        destruct (decide (tag ∈ rest)) as [Hin | Hnin],
                 (decide (tag ∈ tag0 :: rest)) as [Hin' | Hnin']; try done.
        -- destruct Hnin'. by apply list_elem_of_further.
        -- apply elem_of_cons in Hin' as [-> | Hin']; done.
    + assert (dicom_data !! tag0 = None) as Hnone.
      { destruct (dicom_data !! tag0) eqn:Hl; [| done].
        assert (contains dicom_data tag0 = true) by (apply contains_spec; by rewrite Hl).
        congruence. }
      destruct (IH dicom_data) as (scrubbed & -> & Hlook).
      exists scrubbed. split; [done |]. intros tag. rewrite Hlook.
      destruct (decide (tag = tag0)) as [-> | Hne].
      * rewrite Hnone. by destruct (decide (tag0 ∈ rest)), (decide (tag0 ∈ tag0 :: rest)).
      * destruct (decide (tag ∈ rest)) as [Hin | Hnin],
                 (decide (tag ∈ tag0 :: rest)) as [Hin' | Hnin']; try done.
        -- destruct Hnin'. by apply list_elem_of_further.
        -- apply elem_of_cons in Hin' as [-> | Hin']; done.
Qed.

Lemma scrub_cleared (dicom_data scrubbed : Dataset) tag :
  scrub dicom_data = Some scrubbed -> tag ∈ scrub_tags -> cleared scrubbed tag.
Proof.
  intros Hs Hin. destruct (scrub_from_spec scrub_tags dicom_data) as (s' & Hs' & Hlook).
  unfold scrub in Hs. rewrite Hs in Hs'. injection Hs' as <-.
  unfold cleared. rewrite Hlook. destruct (decide (tag ∈ scrub_tags)); [| done].
  destruct (dicom_data !! tag); cbn; auto.
Qed.

Lemma scrub_clears_fields_only (dicom_data : Dataset) :
  exists scrubbed : Dataset,
    scrub dicom_data = Some scrubbed /\
    forall tag, tag ∉ scrub_tags -> scrubbed !! tag = dicom_data !! tag.
Proof.
  destruct (scrub_from_spec scrub_tags dicom_data) as (scrubbed & Hs & Hlook).
  exists scrubbed. split; [done |]. intros tag Hnin. rewrite Hlook.
  by destruct (decide (tag ∈ scrub_tags)).
Qed.

(** C5.  For every decoded data set the scrub raises no error; each of
    [PatientName], [PatientID] and [PatientBirthDate] that is present has
    its value set to the empty string (its representation kept), each that
    is absent stays absent, and every other field is unchanged. *)
Theorem scrub_clears_identity_fields (dicom_data : Dataset) :
  exists scrubbed : Dataset,
    scrub dicom_data = Some scrubbed /\
    (forall tag el, tag ∈ scrub_tags -> dicom_data !! tag = Some el ->
       scrubbed !! tag = Some {| VR := VR el; value := Text [] |}) /\
    (forall tag, tag ∈ scrub_tags -> dicom_data !! tag = None ->
       scrubbed !! tag = None) /\
    (forall tag, tag ∉ scrub_tags -> scrubbed !! tag = dicom_data !! tag).
Proof.
  destruct (scrub_from_spec scrub_tags dicom_data) as (scrubbed & Hs & Hlook).
  exists scrubbed. split; [done |]. repeat split.
  - intros tag el Hin Hel. rewrite Hlook, Hel. by destruct (decide (tag ∈ scrub_tags)).
  - intros tag Hin Hel. rewrite Hlook, Hel. by destruct (decide (tag ∈ scrub_tags)).
  - intros tag Hnin. rewrite Hlook. by destruct (decide (tag ∈ scrub_tags)).
Qed.

End DicomFacts.

(** ** Strings *)

Module PyFacts.
Import Py.

Lemma lstrip_spec s :
  exists lead,
    s = lead ++ lstrip s /\
    Forall (fun c => isspace c = true) lead /\
    (forall c, head (lstrip s) = Some c -> isspace c = false).
Proof.
  induction s as [|c r IH]; simpl.
  - exists []. by repeat split.
  - destruct (isspace c) eqn:Hc.
    + destruct IH as (lead & Hr & Hlead & Hhead).
      exists (c :: lead). repeat split; [simpl; congruence | by constructor | done].
    + exists []. repeat split; [done |]. simpl. congruence.
Qed.

Lemma lstrip_all_space s :
  Forall (fun c => isspace c = true) s -> lstrip s = [].
Proof. induction 1 as [|c r Hc _ IH]; simpl; [done | by rewrite Hc]. Qed.

Lemma last_rev {A} (l : list A) : last (rev l) = head l.
Proof. destruct l as [|a l]; [done |]. simpl. apply last_snoc. Qed.

Lemma rstrip_spec s :
  exists trail,
    s = rstrip s ++ trail /\
    Forall (fun c => isspace c = true) trail /\
    (forall c, last (rstrip s) = Some c -> isspace c = false).
Proof.
  unfold rstrip. destruct (lstrip_spec (rev s)) as (lead & Hs & Hlead & Hhead).
  exists (rev lead). repeat split.
  - rewrite <- rev_app_distr, <- Hs. by rewrite rev_involutive.
  - by apply Forall_rev.
  - intros c Hc. apply Hhead. by rewrite last_rev in Hc.
Qed.

Lemma head_app_Some {A} (l k : list A) x : head l = Some x -> head (l ++ k) = Some x.
Proof. by destruct l. Qed.

(** [strip] splits a string into white space, a core, and white space. *)
Lemma strip_spec s :
  exists lead trail,
    s = lead ++ strip s ++ trail /\
    Forall (fun c => isspace c = true) lead /\
    Forall (fun c => isspace c = true) trail /\
    (forall c, head (strip s) = Some c -> isspace c = false) /\
    (forall c, last (strip s) = Some c -> isspace c = false).
Proof.
  unfold strip.
  destruct (lstrip_spec s) as (lead & Hs & Hlead & Hhead).
  destruct (rstrip_spec (lstrip s)) as (trail & Ht & Htrail & Hlast).
  exists lead, trail. repeat split; try done.
  - by rewrite <- Ht.
  - intros c Hc. apply Hhead. rewrite Ht. by apply head_app_Some.
Qed.

Lemma lstrip_app_space l r :
  Forall (fun c => isspace c = true) l -> lstrip (l ++ r) = lstrip r.
Proof. induction 1 as [|c l Hc _ IH]; simpl; [done | by rewrite Hc]. Qed.

Lemma lstrip_no_space s :
  (forall c, head s = Some c -> isspace c = false) -> lstrip s = s.
Proof. destruct s as [|c r]; [done |]. intros Hh. simpl. by rewrite (Hh c). Qed.

(** Conversely, any such split has [strip s] as its core. *)
Lemma strip_unique s lead core trail :
  s = lead ++ core ++ trail ->
  Forall (fun c => isspace c = true) lead ->
  Forall (fun c => isspace c = true) trail ->
  (forall c, head core = Some c -> isspace c = false) ->
  (forall c, last core = Some c -> isspace c = false) ->
  strip s = core.
Proof.
  intros -> Hlead Htrail Hhead Hlast. unfold strip.
  rewrite lstrip_app_space by done.
  destruct core as [|x core'].
  - simpl. rewrite lstrip_all_space by done. done.
  - rewrite lstrip_no_space by (intros c Hc; apply Hhead; by apply (head_app_Some _ trail) in Hc).
    unfold rstrip. rewrite rev_app_distr.
    rewrite lstrip_app_space by (by apply Forall_rev).
    rewrite lstrip_no_space; [apply rev_involutive |].
    intros c Hc. apply Hlast. by rewrite <- last_rev, rev_involutive in Hc.
Qed.

Lemma strip_all_space s :
  Forall (fun c => isspace c = true) s -> strip s = [].
Proof. intros Hs. unfold strip. by rewrite lstrip_all_space. Qed.

End PyFacts.

(** ** Estimate, confidence band and file name *)

Module ReportFacts.
Import Normalizer Report.

(** C7.  For every input image array [estimate_bone_age] returns 120; the
    result does not depend on the image. *)
Theorem estimate_is_constant (image_array other : ndarray) :
  estimate_bone_age image_array = 120 /\
  estimate_bone_age image_array = estimate_bone_age other.
Proof. done. Qed.

Lemma py_max_Qmax a b : (py_max a b == Qmax a b)%Q.
Proof.
  unfold py_max. destruct (Qle_bool b a) eqn:Hle.
  - apply Qle_bool_iff in Hle. symmetry. by apply Q.max_l.
  - symmetry. apply Q.max_r. destruct (Qlt_le_dec a b) as [Hlt | Hge].
    + by apply Qlt_le_weak.
    + apply Qle_bool_iff in Hge. congruence.
Qed.

Lemma py_min_Qmin a b : (py_min a b == Qmin a b)%Q.
Proof.
  unfold py_min. destruct (Qle_bool a b) eqn:Hle.
  - apply Qle_bool_iff in Hle. symmetry. by apply Q.min_l.
  - symmetry. apply Q.min_r. destruct (Qlt_le_dec b a) as [Hlt | Hge].
    + by apply Qlt_le_weak.
    + apply Qle_bool_iff in Hge. congruence.
Qed.

(** C8.  For every age estimate [a] the band shown is
    [max(0, a - 1.5), min(216, a + 1.5)]; it is [118.5, 121.5] for 120,
    [0, 2.5] for 1, and ends at 216 for 216. *)
Theorem confidence_band :
  (forall a : Q,
     confidence_low a == Qmax 0 (a - 1.5) /\
     confidence_high a == Qmin 216 (a + 1.5))%Q /\
  (confidence_low 120 == 118.5 /\ confidence_high 120 == 121.5)%Q /\
  (confidence_low 1 == 0 /\ confidence_high 1 == 2.5)%Q /\
  (confidence_high 216 == 216)%Q.
Proof.
  split; [| by vm_compute].
  intros a. split; [apply py_max_Qmax | apply py_min_Qmin].
Qed.

(** C9.  For every patient name the file name is the name without its
    leading and trailing white space, each space left in it replaced by an
    underscore, followed by ["_report.pdf"]; ["Jane Doe"] gives
    ["Jane_Doe_report.pdf"] and ["  Bob  "] gives ["Bob_report.pdf"]. *)
Theorem filename_from_trimmed_name :
  (forall patient_name file_name,
     trimmed_filename patient_name file_name <-> file_name = safe_filename patient_name) /\
  safe_filename (Py.lit "Jane Doe") = Py.lit "Jane_Doe_report.pdf" /\
  safe_filename (Py.lit "  Bob  ") = Py.lit "Bob_report.pdf".
Proof.
  split; [| by vm_compute].
  intros patient_name file_name. split.
  - intros (lead & core & trail & Hs & Hl & Ht & [Hh Hla] & ->).
    unfold safe_filename. by rewrite (PyFacts.strip_unique _ lead core trail).
  - intros ->.
    destruct (PyFacts.strip_spec patient_name) as (lead & trail & Hs & Hl & Ht & Hh & Hla).
    exists lead, (Py.strip patient_name), trail. by repeat split.
Qed.

Lemma blank_filename patient_name :
  Forall (fun c => Py.isspace c = true) patient_name ->
  safe_filename patient_name = Py.lit "_report.pdf".
Proof.
  intros Hs. unfold safe_filename. by rewrite PyFacts.strip_all_space.
Qed.

End ReportFacts.

(** ** The main logic *)

Module AppFacts.
Import Normalizer Dicom Report App.

Lemma after_scrub rest (i : nat) e :
  (MetadataScrubbed :: rest) !! i = Some e -> uses_record e ->
  exists j : nat, (j < i)%nat /\ (MetadataScrubbed :: rest) !! j = Some MetadataScrubbed.
Proof.
  destruct i as [|i]; simpl.
  - by intros [= <-] [].
  - intros _ _. exists 0%nat. split; [lia | done].
Qed.

(** The shape of every trace of the DICOM path: nothing at all when the
    file cannot be read or the scrub fails, otherwise the scrub mark, then
    the extraction from the scrubbed data set, then the rest. *)
Lemma dicom_trace pixel_array session_state option uploaded_file t r :
  file_ext uploaded_file = "dcm"%string ->
  main pixel_array session_state option uploaded_file [] = (t, r) ->
  t = [] \/
  exists dicom_data scrubbed rest,
    dcmread uploaded_file = Some dicom_data /\
    scrub dicom_data = Some scrubbed /\
    t = MetadataScrubbed :: PixelArrayRead scrubbed :: rest /\
    Forall (fun e => match e with
                     | MetadataScrubbed | PixelArrayRead _ => False
                     | _ => True
                     end) rest.
Proof.
  intros Hext. unfold main, show_upload, show_result. rewrite Hext.
  change (String.eqb "dcm" "dcm") with true. cbv iota.
  unfold mbind, M_bind, mret, M_ret, lift, emit.
  destruct (dcmread uploaded_file) as [dicom_data|];
    [| simpl; intros ?; simplify_eq; by left].
  destruct (scrub dicom_data) as [scrubbed|] eqn:Hs;
    [| simpl; intros ?; simplify_eq; by left].
  destruct (pixel_array scrubbed) as [image|];
    [destruct (normalize_to_uint8 image) as [image'|] |];
    simpl; intros ?; simplify_eq; right; exists dicom_data, scrubbed; eexists;
    (split; [done |]); (split; [done |]); (split; [done |]);
    repeat constructor.
Qed.



(** C10.  A patient name made of white space only (the empty name included)
    gives the file name ["_report.pdf"]; when the session state holds no
    name at all, the name is ["patient"]: the report reads
    ["Patient Name: patient"] and the file offered is
    ["patient_report.pdf"]. *)
Theorem blank_and_missing_names (name : Py.str) (session_state : SessionState)
    (option : gender) (image : ndarray) (t : list event) :
  (Forall (fun c => Py.isspace c = true) name ->
   safe_filename name = Py.lit "_report.pdf") /\
  (session_state !! "name"%string = None ->
   patient_name session_state = Py.lit "patient" /\
   Cell (Py.lit "Patient Name: patient")
     ∈ report (patient_name session_state) option (estimate_bone_age image) /\
   show_result session_state option image t
   = (t ++ [Estimated image 120;
            BandShown (confidence_low 120) (confidence_high 120);
            DownloadOffered (report (Py.lit "patient") option 120)
                            (Py.lit "patient_report.pdf")],
      Some tt)).
Proof.
  split; [apply ReportFacts.blank_filename |].
  intros Hnone.
  assert (patient_name session_state = Py.lit "patient") as Hname
    by (unfold patient_name; by rewrite Hnone).
  split; [done |]. split.
  - rewrite Hname. unfold report. do 2 apply list_elem_of_further. apply list_elem_of_here.
  - unfold show_result, mbind, M_bind, emit. rewrite Hname. cbn.
    by rewrite <- !app_assoc.
Qed.

Lemma blank_and_missing_names_witness :
  safe_filename (Py.lit "   ") = Py.lit "_report.pdf" /\
  patient_name ∅ = Py.lit "patient" /\
  Cell (Py.lit "Patient Name: patient")
    ∈ report (patient_name ∅) Female (estimate_bone_age Samples.flat500) /\
  show_result ∅ Female Samples.flat500 []
  = ([Estimated Samples.flat500 120;
      BandShown (confidence_low 120) (confidence_high 120);
      DownloadOffered (report (Py.lit "patient") Female 120)
                      (Py.lit "patient_report.pdf")],
     Some tt).
Proof.
  destruct (blank_and_missing_names (Py.lit "   ") ∅ Female Samples.flat500 [])
    as [Hblank Hmissing].
  split.
  - apply Hblank. vm_compute. repeat constructor.
  - apply Hmissing. reflexivity.
Defined.

End AppFacts.

(** ** Worked scenarios *)

Module Scenarios.
Import Normalizer Dicom Report App.

(** Integers in binary32: 3 is [1.5 * 2], and [2 ^ 24 + 1] is not a
    binary32 number. *)
Example of_Z_3 : Float32.of_Z 3 = S754_finite false 12582912 (-22).
Proof. reflexivity. Qed.

Example of_Z_inexact : Float32.of_Z 16777217 = Float32.of_Z 16777216.
Proof. reflexivity. Qed.

Example normalize_empty :
  normalize_to_uint8 {| dtype_of := UInt8; shape := [0]%nat; data := [] |} = None.
Proof. reflexivity. Qed.

Example normalize_flat500 :
  data <$> normalize_to_uint8 Samples.flat500 = Some [0; 0; 0; 0].
Proof. reflexivity. Qed.

Example normalize_ramp014 :
  data <$> normalize_to_uint8 Samples.ramp014 = Some [0; 63; 255].
Proof. by vm_compute. Qed.

Example round_ramp014 : map (round_scale 0 4) [0; 1; 4] = [0; 64; 255].
Proof. reflexivity. Qed.

Example normalize_signed16 :
  data <$> normalize_to_uint8 Samples.signed16 = Some [0; 127; 131; 255].
Proof. by vm_compute. Qed.

(** Past the exact range the top pixel is no longer 255, although the
    integer quotient is. *)
Example normalize_wide :
  data <$> normalize_to_uint8 Samples.wide = Some [0; 254] /\
  map (floor_scale 0 65795) [0; 65795] = [0; 255].
Proof. by vm_compute. Qed.

(** The scrub scenario of the specification. *)
Example scrub_jane :
  exists scrubbed : Dataset,
    scrub Samples.jane = Some scrubbed /\
    value <$> scrubbed !! "PatientName"%string = Some (Text []) /\
    value <$> scrubbed !! "PatientID"%string = Some (Text []) /\
    value <$> scrubbed !! "PatientBirthDate"%string = Some (Text []) /\
    scrubbed !! "Modality"%string = Samples.jane !! "Modality"%string.
Proof. eexists. split; [by vm_compute |]. by vm_compute. Qed.

Example scrub_without_id :
  exists scrubbed : Dataset,
    scrub (delete "PatientID"%string Samples.jane) = Some scrubbed /\
    scrubbed !! "PatientID"%string = None /\
    value <$> scrubbed !! "PatientName"%string = Some (Text []).
Proof. eexists. split; [by vm_compute |]. by vm_compute. Qed.

(** The end-to-end scenario: a flat DICOM image, no name entered. *)
Example run_jane :
  exists scrubbed zeros,
    main Samples.flat_pixels ∅ Unknown Samples.jane_dcm []
    = ([ MetadataScrubbed;
         PixelArrayRead scrubbed;
         ImageShown zeros (Py.lit "DICOM Image");
         Estimated zeros 120;
         BandShown (confidence_low 120) (confidence_high 120);
         DownloadOffered (report (Py.lit "patient") Unknown 120)
                         (Py.lit "patient_report.pdf") ],
       Some tt) /\
    scrub Samples.jane = Some scrubbed /\
    data zeros = [0; 0; 0; 0] /\
    report (Py.lit "Test") Unknown 120
    = [ Cell (Py.lit "Bone-Ager Report"); Ln;
        Cell (Py.lit "Patient Name: Test");
        Cell (Py.lit "Gender: Unknown");
        Cell (Py.lit "Estimated Bone Age: 120.0 years") ].
Proof. do 2 eexists. split; [by vm_compute |]. by vm_compute. Qed.

End Scenarios.

(** ** More on the normalizer *)

Module NormalizerExtras.
Import Float32 Float32Facts Normalizer NormalizerFacts Transforms.

(** X1.  [normalize_to_uint8] raises exactly on the empty array: it returns
    an array for every non-empty input, whatever its samples. *)
Theorem normalize_raises_iff_empty image :
  normalize_to_uint8 image = None <-> data image = [].
Proof.
  unfold normalize_to_uint8. destruct (data image) as [|x r]; [done |].
  simpl. by destruct (decide _).
Qed.

(** X2.  Whatever the samples, an array that is returned has element type
    [uint8], the shape and the number of elements of the input, and every
    element within [0, 255]. *)
Theorem normalize_output_is_uint8 image out :
  normalize_to_uint8 image = Some out ->
  dtype_of out = UInt8 /\ shape out = shape image /\
  length (data out) = length (data image) /\
  Forall (fun y => 0 <= y <= 255) (data out).
Proof.
  unfold normalize_to_uint8.
  destruct (np_max (data image)) as [hi|]; [| done].
  destruct (np_min (data image)) as [lo|]; [| done]. simpl.
  destruct (decide (hi = lo)) as [_ | _].
  - intros [= <-]. simpl. rewrite length_map. repeat split.
    apply Forall_forall. intros y (? & -> & _)%list_elem_of_fmap. lia.
  - destruct (np_min_f32 _) as [lo32|]; [| done].
    destruct (np_max_f32 _) as [hi32|]; [| done]. simpl.
    intros [= <-]. simpl. rewrite !length_map. repeat split.
    apply Forall_forall. intros y (f & -> & _)%list_elem_of_fmap.
    unfold to_uint8. pose proof (Z.mod_pos_bound (trunc f) 256). lia.
Qed.

Lemma normalize_output_is_uint8_witness :
  dtype_of (zeros_like_uint8 Samples.flat500) = UInt8 /\
  shape (zeros_like_uint8 Samples.flat500) = shape Samples.flat500 /\
  length (data (zeros_like_uint8 Samples.flat500)) = length (data Samples.flat500) /\
  Forall (fun y => 0 <= y <= 255) (data (zeros_like_uint8 Samples.flat500)).
Proof.
  apply (normalize_output_is_uint8 Samples.flat500). reflexivity.
Defined.

Lemma floor_scale_mono lo hi x y :
  lo < hi -> x <= y -> floor_scale lo hi x <= floor_scale lo hi y.
Proof.
  intros Hlt Hxy. unfold floor_scale. apply Z.div_le_mono; lia.
Qed.

(** X3.  Within the exact range the rescale keeps the order of the samples:
    a pixel at least as bright as another in the input is at least as
    bright in the output. *)
Theorem normalize_keeps_order image lo hi :
  Forall fits_float32 (data image) ->
  np_min (data image) = Some lo -> np_max (data image) = Some hi ->
  lo < hi -> 255 * (hi - lo) < 2 ^ 24 ->
  exists out,
    normalize_to_uint8 image = Some out /\
    forall (i j : nat) x y,
      data image !! i = Some x -> data image !! j = Some y -> x <= y ->
      exists u v, data out !! i = Some u /\ data out !! j = Some v /\ u <= v.
Proof.
  intros Hfit Hmin Hmax Hlt Hrange. eexists. split.
  { by apply (normalize_exact image lo hi). }
  simpl. intros i j x y Hx Hy Hxy.
  exists (floor_scale lo hi x), (floor_scale lo hi y).
  change (map (floor_scale lo hi) (data image)) with (floor_scale lo hi <$> data image).
  rewrite !list_lookup_fmap, Hx, Hy. repeat split. by apply floor_scale_mono.
Qed.

Lemma normalize_keeps_order_witness :
  exists out,
    normalize_to_uint8 Samples.signed16 = Some out /\
    forall (i j : nat) x y,
      data Samples.signed16 !! i = Some x -> data Samples.signed16 !! j = Some y ->
      x <= y ->
      exists u v, data out !! i = Some u /\ data out !! j = Some v /\ u <= v.
Proof.
  apply (normalize_keeps_order Samples.signed16 (-32768) 32767).
  - simpl. repeat constructor.
  - reflexivity.
  - reflexivity.
  - lia.
  - reflexivity.
Defined.

Lemma np_min_map_mono (f : Z -> Z) l lo :
  (forall x y, x <= y -> f x <= f y) ->
  np_min l = Some lo -> np_min (map f l) = Some (f lo).
Proof.
  intros Hf [Hin Hall]%np_min_spec. apply np_min_spec. split.
  - apply list_elem_of_fmap. eauto.
  - rewrite Forall_forall in Hall. apply Forall_forall.
    intros y (x & -> & Hx)%list_elem_of_fmap. auto.
Qed.

Lemma np_max_map_mono (f : Z -> Z) l hi :
  (forall x y, x <= y -> f x <= f y) ->
  np_max l = Some hi -> np_max (map f l) = Some (f hi).
Proof.
  intros Hf [Hin Hall]%np_max_spec. apply np_max_spec. split.
  - apply list_elem_of_fmap. eauto.
  - rewrite Forall_forall in Hall. apply Forall_forall.
    intros y (x & -> & Hx)%list_elem_of_fmap. auto.
Qed.

(** X4.  Within the exact range the result does not depend on the level of
    the image: adding one constant to every sample gives the same output. *)
Theorem normalize_ignores_offset image c lo hi :
  Forall fits_float32 (data image) ->
  Forall fits_float32 (data (offset c image)) ->
  np_min (data image) = Some lo -> np_max (data image) = Some hi ->
  lo < hi -> 255 * (hi - lo) < 2 ^ 24 ->
  normalize_to_uint8 (offset c image) = normalize_to_uint8 image /\
  is_Some (normalize_to_uint8 image).
Proof.
  intros Hfit Hfit' Hmin Hmax Hlt Hrange.
  rewrite (normalize_exact image lo hi) by done.
  rewrite (normalize_exact (offset c image) (lo + c) (hi + c)); try done.
  - split; [| by eexists]. simpl. do 2 f_equal. rewrite map_map.
    apply map_ext. intros x. unfold floor_scale.
    replace (x + c - (lo + c)) with (x - lo) by lia.
    by replace (hi + c - (lo + c)) with (hi - lo) by lia.
  - simpl. apply (np_min_map_mono (fun x => x + c)); [intros; lia | done].
  - simpl. apply (np_max_map_mono (fun x => x + c)); [intros; lia | done].
  - lia.
  - lia.
Qed.

Lemma normalize_ignores_offset_witness :
  normalize_to_uint8 (offset 1000 Samples.dim8) = normalize_to_uint8 Samples.dim8 /\
  is_Some (normalize_to_uint8 Samples.dim8).
Proof.
  apply (normalize_ignores_offset Samples.dim8 1000 10 20).
  - simpl. repeat constructor.
  - simpl. repeat constructor.
  - reflexivity.
  - reflexivity.
  - lia.
  - reflexivity.
Defined.

(** X5.  Nor does it depend on the contrast: multiplying every sample by
    one positive constant gives the same output, as long as the multiplied
    image is still within the exact range. *)
Theorem normalize_ignores_gain image k lo hi :
  0 < k ->
  Forall fits_float32 (data (gain k image)) ->
  np_min (data image) = Some lo -> np_max (data image) = Some hi ->
  lo < hi -> 255 * (k * (hi - lo)) < 2 ^ 24 ->
  normalize_to_uint8 (gain k image) = normalize_to_uint8 image /\
  is_Some (normalize_to_uint8 image).
Proof.
  intros Hk Hfit' Hmin Hmax Hlt Hrange.
  assert (Forall fits_float32 (data image)) as Hfit.
  { simpl in Hfit'. rewrite Forall_forall in Hfit'. apply Forall_forall.
    intros x Hx. unfold fits_float32 in *.
    assert (Z.abs (k * x) < 2 ^ 24) by (apply Hfit', list_elem_of_fmap; eauto).
    nia. }
  rewrite (normalize_exact image lo hi); try done; [| nia].
  rewrite (normalize_exact (gain k image) (k * lo) (k * hi)); try done.
  - split; [| by eexists]. simpl. do 2 f_equal. rewrite map_map.
    apply map_ext. intros x. unfold floor_scale.
    replace (255 * (k * x - k * lo)) with (k * (255 * (x - lo))) by lia.
    replace (k * hi - k * lo) with (k * (hi - lo)) by lia.
    apply Z.div_mul_cancel_l; lia.
  - simpl. apply (np_min_map_mono (fun x => k * x)); [intros; nia | done].
  - simpl. apply (np_max_map_mono (fun x => k * x)); [intros; nia | done].
  - nia.
  - lia.
Qed.

Lemma normalize_ignores_gain_witness :
  normalize_to_uint8 (gain 100 Samples.dim8) = normalize_to_uint8 Samples.dim8 /\
  is_Some (normalize_to_uint8 Samples.dim8).
Proof.
  apply (normalize_ignores_gain Samples.dim8 100 10 20).
  - lia.
  - simpl. repeat constructor.
  - reflexivity.
  - reflexivity.
  - lia.
  - reflexivity.
Defined.

(** X6.  Within the exact range, because the cast truncates, an output
    pixel is 255 only where the input has its maximum, and it is 0 exactly
    where the sample is less than 1/255 of the range above the minimum. *)
Theorem normalize_extremes image lo hi :
  Forall fits_float32 (data image) ->
  np_min (data image) = Some lo -> np_max (data image) = Some hi ->
  lo < hi -> 255 * (hi - lo) < 2 ^ 24 ->
  exists out,
    normalize_to_uint8 image = Some out /\
    forall (i : nat) x, data image !! i = Some x ->
      exists u, data out !! i = Some u /\
                (u = 255 <-> x = hi) /\
                (u = 0 <-> 255 * (x - lo) < hi - lo).
Proof.
  intros Hfit Hmin Hmax Hlt Hrange. eexists. split.
  { by apply (normalize_exact image lo hi). }
  simpl. intros i x Hx. exists (floor_scale lo hi x).
  change (map (floor_scale lo hi) (data image)) with (floor_scale lo hi <$> data image).
  rewrite list_lookup_fmap, Hx. split; [done |].
  apply np_min_spec in Hmin as [_ Hlo]. apply np_max_spec in Hmax as [_ Hhi].
  rewrite Forall_forall in Hlo, Hhi. apply list_elem_of_lookup_2 in Hx.
  specialize (Hlo _ Hx). specialize (Hhi _ Hx). unfold floor_scale.
  pose proof (Z.div_mod (255 * (x - lo)) (hi - lo) ltac:(lia)) as Hdm.
  pose proof (Z.mod_pos_bound (255 * (x - lo)) (hi - lo) ltac:(lia)) as Hrem.
  split; split; intros H.
  - rewrite H in Hdm. nia.
  - subst x. apply Z.div_mul. lia.
  - rewrite H in Hdm. lia.
  - apply Z.div_small. lia.
Qed.

Lemma normalize_extremes_witness :
  exists out,
    normalize_to_uint8 Samples.dim8 = Some out /\
    forall (i : nat) x, data Samples.dim8 !! i = Some x ->
      exists u, data out !! i = Some u /\
                (u = 255 <-> x = 20) /\
                (u = 0 <-> 255 * (x - 10) < 20 - 10).
Proof.
  apply (normalize_extremes Samples.dim8 10 20).
  - simpl. repeat constructor.
  - reflexivity.
  - reflexivity.
  - lia.
  - reflexivity.
Defined.

(** X7.  The output of the normalizer is a fixed point of it, for every
    image within the exact range, flat or not: normalizing what was
    normalized changes nothing. *)
Theorem normalize_output_is_fixed image lo hi :
  Forall fits_float32 (data image) ->
  np_min (data image) = Some lo -> np_max (data image) = Some hi ->
  255 * (hi - lo) < 2 ^ 24 ->
  exists once,
    normalize_to_uint8 image = Some once /\ normalize_to_uint8 once = Some once.
Proof.
  intros Hfit Hmin Hmax Hrange.
  pose proof Hmin as [Hlo_in Hlo]%np_min_spec.
  pose proof Hmax as [Hhi_in Hhi]%np_max_spec.
  rewrite Forall_forall in Hlo, Hhi.
  assert (data image <> []) as Hne by (intros E; rewrite E in Hlo_in; by apply elem_of_nil in Hlo_in).
  pose proof (Hlo _ Hhi_in) as Hle.
  destruct (Z.eq_dec lo hi) as [<- | Hneq].
  - exists (zeros_like_uint8 image). split.
    + apply (normalize_flat image lo); [done |].
      apply Forall_forall. intros x Hx.
      specialize (Hlo _ Hx). specialize (Hhi _ Hx). lia.
    + rewrite (normalize_flat _ 0).
      * unfold zeros_like_uint8. simpl. by rewrite map_map.
      * simpl. by destruct (data image).
      * simpl. apply Forall_forall. by intros x (? & -> & _)%list_elem_of_fmap.
  - eexists. split.
    + apply (normalize_exact image lo hi); try done; lia.
    + destruct (floor_scale_min_max lo hi (data image)) as [Hmin' Hmax']; [done.. | lia |].
      rewrite (normalize_exact _ 0 255); simpl; try done.
      * rewrite map_map. do 2 f_equal. apply map_ext. intros x. apply floor_scale_id.
      * apply Forall_forall. intros y (x & -> & Hx)%list_elem_of_fmap.
        pose proof (floor_scale_range lo hi x).
        specialize (Hlo _ Hx). specialize (Hhi _ Hx). unfold fits_float32. lia.
Qed.

Lemma normalize_output_is_fixed_witness :
  exists once,
    normalize_to_uint8 Samples.signed16 = Some once /\
    normalize_to_uint8 once = Some once.
Proof.
  apply (normalize_output_is_fixed Samples.signed16 (-32768) 32767).
  - simpl. repeat constructor.
  - reflexivity.
  - reflexivity.
  - reflexivity.
Defined.

(** X8.  The test of line 47 guards the division of line 50: for samples
    that binary32 holds exactly and a range below [2 ^ 24], whenever the
    integer maximum and minimum differ, the divisor [max - min] computed on
    the float array is a finite, positive, non-zero float, namely the
    integer range. *)
Theorem divisor_is_nonzero image lo hi :
  Forall fits_float32 (data image) ->
  np_min (data image) = Some lo -> np_max (data image) = Some hi ->
  lo < hi -> hi - lo < 2 ^ 24 ->
  exists lo32 hi32 m e,
    np_min_f32 (map of_Z (data image)) = Some lo32 /\
    np_max_f32 (map of_Z (data image)) = Some hi32 /\
    sub hi32 lo32 = S754_finite false m e /\
    sub hi32 lo32 = of_Z (hi - lo).
Proof.
  intros Hfit Hmin Hmax Hlt Hrange.
  pose proof Hmin as [Hlo_in _]%np_min_spec.
  pose proof Hmax as [Hhi_in _]%np_max_spec.
  rewrite Forall_forall in Hfit.
  pose proof (Hfit _ Hlo_in) as Hflo. pose proof (Hfit _ Hhi_in) as Hfhi.
  unfold fits_float32 in Hflo, Hfhi.
  exists (canon lo), (canon hi).
  assert (sub (canon hi) (canon lo) = canon (hi - lo)) as Hsub
    by (apply sub_canon; lia).
  destruct (hi - lo) as [|p|p] eqn:Hd; try lia.
  exists (mant (Z.pos p)), (expo (Z.pos p)).
  rewrite np_min_f32_canon, np_max_f32_canon, Hmin, Hmax
    by (by apply Forall_forall).
  repeat split; try done.
  rewrite Hsub. symmetry. apply of_Z_canon. lia.
Qed.

Lemma divisor_is_nonzero_witness :
  exists lo32 hi32 m e,
    np_min_f32 (map of_Z (data Samples.signed16)) = Some lo32 /\
    np_max_f32 (map of_Z (data Samples.signed16)) = Some hi32 /\
    sub hi32 lo32 = S754_finite false m e /\
    sub hi32 lo32 = of_Z (32767 - -32768).
Proof.
  apply (divisor_is_nonzero Samples.signed16 (-32768) 32767).
  - simpl. repeat constructor.
  - reflexivity.
  - reflexivity.
  - lia.
  - reflexivity.
Defined.

(** X9.  The conversion of line 49 loses nothing on integers of magnitude
    below [2 ^ 24]: converting to [float32] and back gives the integer, and
    for a value in [0, 255] so does the cast to [uint8] of line 51. *)
Theorem float32_round_trip z :
  Z.abs z < 2 ^ 24 ->
  trunc (of_Z z) = z /\ (0 <= z <= 255 -> to_uint8 (of_Z z) = z).
Proof.
  intros Hz.
  assert (trunc (of_Z z) = z) as Ht.
  { rewrite of_Z_canon by done. destruct z as [|p|p]; [done | |].
    - cbn [canon]. pose proof (expo_range (Z.pos p) ltac:(lia)) as He.
      rewrite trunc_finite_nonpos, mant_spec by lia.
      apply Z.div_mul. apply Z.pow_nonzero; lia.
    - cbn [canon]. pose proof (expo_range (Z.pos p) ltac:(lia)) as He.
      pose proof (trunc_finite_nonpos (mant (Z.pos p)) (expo (Z.pos p)) ltac:(lia)) as Hp.
      rewrite mant_spec, Z.div_mul in Hp by (try apply Z.pow_nonzero; lia).
      unfold trunc in *. rewrite Hp. lia. }
  split; [done |]. intros Hbyte. unfold to_uint8. rewrite Ht. apply Z.mod_small. lia.
Qed.

Lemma float32_round_trip_witness :
  trunc (of_Z 200) = 200 /\ (0 <= 200 <= 255 -> to_uint8 (of_Z 200) = 200).
Proof. apply (float32_round_trip 200). reflexivity. Defined.

(** X10.  On samples that binary32 holds exactly, minimum and maximum
    commute with the conversion of line 49: [np.min] and [np.max] of the
    float array are the converted integer minimum and maximum, so line 50
    sees the same extremes as the test of line 47. *)
Theorem extremes_commute_with_conversion (l : list Z) :
  Forall fits_float32 l ->
  np_min_f32 (map of_Z l) = of_Z <$> np_min l /\
  np_max_f32 (map of_Z l) = of_Z <$> np_max l.
Proof.
  intros Hfit. rewrite np_min_f32_canon, np_max_f32_canon by done.
  rewrite Forall_forall in Hfit. split.
  - destruct (np_min l) as [lo|] eqn:Hmin; [| done]. simpl. f_equal.
    symmetry. apply of_Z_canon. apply np_min_spec in Hmin as [Hin _]. by apply Hfit.
  - destruct (np_max l) as [hi|] eqn:Hmax; [| done]. simpl. f_equal.
    symmetry. apply of_Z_canon. apply np_max_spec in Hmax as [Hin _]. by apply Hfit.
Qed.

Lemma extremes_commute_with_conversion_witness :
  np_min_f32 (map of_Z (data Samples.signed16)) = of_Z <$> np_min (data Samples.signed16) /\
  np_max_f32 (map of_Z (data Samples.signed16)) = of_Z <$> np_max (data Samples.signed16).
Proof.
  apply (extremes_commute_with_conversion (data Samples.signed16)).
  simpl. repeat constructor.
Defined.

End NormalizerExtras.

(** ** More on the scrub *)

Module DicomExtras.
Import Dicom DicomFacts.

(** X11.  Scrubbing a scrubbed data set changes nothing. *)
Theorem scrub_idempotent (dicom_data : Dataset) :
  exists scrubbed : Dataset,
    scrub dicom_data = Some scrubbed /\ scrub scrubbed = Some scrubbed.
Proof.
  destruct (scrub_from_spec scrub_tags dicom_data) as (s1 & Hs1 & Hl1).
  exists s1. split; [done |]. unfold scrub.
  destruct (scrub_from_spec scrub_tags s1) as (s2 & -> & Hl2).
  f_equal. apply map_eq. intros tag. rewrite Hl2, Hl1.
  destruct (decide (tag ∈ scrub_tags)); [| done].
  by destruct (dicom_data !! tag).
Qed.

(** X12.  The scrub neither removes nor adds a field: the data set keeps
    its set of keywords, and every element keeps its value
    representation. *)
Theorem scrub_keeps_fields (dicom_data : Dataset) :
  exists scrubbed : Dataset,
    scrub dicom_data = Some scrubbed /\
    dom scrubbed = dom dicom_data /\
    forall tag, VR <$> scrubbed !! tag = VR <$> dicom_data !! tag.
Proof.
  destruct (scrub_from_spec scrub_tags dicom_data) as (s1 & Hs1 & Hl).
  exists s1. split; [done |]. split.
  - apply set_eq. intros tag. rewrite !elem_of_dom, Hl.
    destruct (decide (tag ∈ scrub_tags)); [| done]. by rewrite fmap_is_Some.
  - intros tag. rewrite Hl. destruct (decide (tag ∈ scrub_tags)); [| done].
    by destruct (dicom_data !! tag).
Qed.

End DicomExtras.

(** ** More on the main logic *)

Module AppExtras.
Import Normalizer Dicom Report App Runs.

Lemma main_unfold pixel_array session_state option uploaded_file :
  main pixel_array session_state option uploaded_file []
  = match show_upload pixel_array uploaded_file [] with
    | (t, Some image) => (t ++ result_events session_state option image, Some tt)
    | (t, None) => (t, None)
    end.
Proof.
  unfold main, mbind, M_bind at 1.
  destruct (show_upload pixel_array uploaded_file []) as [t [image|]]; [| done].
  unfold show_result, mbind, M_bind, emit, result_events. cbn.
  by rewrite <- !app_assoc.
Qed.

Lemma show_upload_events pixel_array uploaded_file t r :
  show_upload pixel_array uploaded_file [] = (t, r) ->
  Forall (fun e => ~ result_event e) t.
Proof.
  unfold show_upload, mbind, M_bind, mret, M_ret, lift, emit.
  destruct (String.eqb _ _).
  - destruct (dcmread uploaded_file) as [d|]; [| simpl; intros ?; simplify_eq; constructor].
    destruct (scrub d) as [d'|]; [| simpl; intros ?; simplify_eq; constructor].
    destruct (pixel_array d') as [image|];
      [destruct (normalize_to_uint8 image) |];
      simpl; intros ?; simplify_eq; repeat constructor; by intros [].
  - destruct (image_open uploaded_file) as [image|];
      simpl; intros ?; simplify_eq; repeat constructor; by intros [].
Qed.







End AppExtras.

(** ** More on the band and the file name *)

Module ReportExtras.
Import Report.

Lemma py_max_cases a b :
  (b <= a /\ py_max a b = a \/ a < b /\ py_max a b = b)%Q.
Proof.
  unfold py_max. destruct (Qle_bool b a) eqn:Hle.
  - left. split; [by apply Qle_bool_iff | done].
  - right. split; [| done]. apply Qnot_le_lt. intros H%Qle_bool_iff. congruence.
Qed.

Lemma py_min_cases a b :
  (a <= b /\ py_min a b = a \/ b < a /\ py_min a b = b)%Q.
Proof.
  unfold py_min. destruct (Qle_bool a b) eqn:Hle.
  - left. split; [by apply Qle_bool_iff | done].
  - right. split; [| done]. apply Qnot_le_lt. intros H%Qle_bool_iff. congruence.
Qed.

(** X16.  Whatever the estimate, the lower end of the band is never
    negative and the upper end never exceeds 216. *)
Theorem band_within_0_216 (bone_age : Q) :
  (0 <= confidence_low bone_age /\ confidence_high bone_age <= 216)%Q.
Proof.
  unfold confidence_low, confidence_high.
  destruct (py_max_cases 0 (bone_age - 1.5)) as [[? ->] | [? ->]],
           (py_min_cases 216 (bone_age + 1.5)) as [[? ->] | [? ->]]; lra.
Qed.

(** X17.  The band is an interval (lower end not above upper end) exactly
    for estimates from -1.5 to 217.5, and the estimate lies inside its own
    band exactly when it is within [0, 216]: outside, clamping one end
    pushes the band off the estimate. *)
Theorem band_shape (bone_age : Q) :
  ((confidence_low bone_age <= confidence_high bone_age
    <-> -1.5 <= bone_age <= 217.5) /\
   (confidence_low bone_age <= bone_age <= confidence_high bone_age
    <-> 0 <= bone_age <= 216))%Q.
Proof.
  unfold confidence_low, confidence_high.
  destruct (py_max_cases 0 (bone_age - 1.5)) as [[? ->] | [? ->]],
           (py_min_cases 216 (bone_age + 1.5)) as [[? ->] | [? ->]];
    repeat split; intros; lra.
Qed.


Lemma replace_no_old old new s : old <> new -> old ∉ Py.replace old new s.
Proof.
  intros Hne (c & Hc & _)%list_elem_of_fmap.
  destruct (N.eqb_spec c old); congruence.
Qed.

(** X19.  The file name never contains a space character, and always ends
    with ["_report.pdf"], so it is never empty. *)
Theorem filename_has_no_space patient_name :
(Py.space ∉ safe_filename patient_name) /\
  exists stem, safe_filename patient_name = stem ++ Py.lit "_report.pdf" /\
               (length stem <= length patient_name)%nat.
Proof.
  unfold safe_filename. split.
  - intros [Hin | Hin]%elem_of_app.
    + by apply replace_no_old in Hin.
    + vm_compute in Hin. repeat (apply elem_of_cons in Hin as [? | Hin]; [done |]).
      by apply elem_of_nil in Hin.
  - eexists. split; [done |]. unfold Py.replace. rewrite length_map.
    destruct (PyFacts.strip_spec patient_name) as (lead & trail & Hs & _).
    rewrite Hs at 2. rewrite !length_app. lia.
Qed.

Lemma replace_no_space s :
  Forall (fun c => Py.isspace c = false) s ->
  Py.replace Py.space Py.underscore s = s.
Proof.
  induction 1 as [|c r Hc _ IH]; [done |]. simpl. rewrite IH.
  destruct (N.eqb_spec c Py.space) as [-> | _]; [done | done].
Qed.

(** X20.  A name without any white space is kept as it is: the file name
    is the name followed by ["_report.pdf"].  Nothing but white space is
    ever altered, so path separators and dots pass through. *)
Theorem filename_keeps_other_characters patient_name :
  Forall (fun c => Py.isspace c = false) patient_name ->
  safe_filename patient_name = patient_name ++ Py.lit "_report.pdf".
Proof.
  intros Hns. unfold safe_filename.
  assert (Py.strip patient_name = patient_name) as ->.
  { apply (PyFacts.strip_unique _ [] patient_name []); try done.
    - by rewrite app_nil_r.
    - intros c Hc. rewrite Forall_forall in Hns. apply Hns.
      destruct patient_name; simplify_eq/=. apply list_elem_of_here.
    - intros c Hc. rewrite Forall_forall in Hns. apply Hns.
      by apply last_Some_elem_of. }
  by rewrite replace_no_space.
Qed.

Lemma filename_keeps_other_characters_witness :
  safe_filename (Py.lit "../../etc/passwd") = Py.lit "../../etc/passwd" ++ Py.lit "_report.pdf".
Proof.
  apply (filename_keeps_other_characters (Py.lit "../../etc/passwd")).
  vm_compute. repeat constructor.
Defined.

(** X21.  White space around the name does not count: names that differ
    only in leading and trailing white space get the same file name. *)
Theorem filename_ignores_surrounding_space lead patient_name trail :
  Forall (fun c => Py.isspace c = true) lead ->
  Forall (fun c => Py.isspace c = true) trail ->
  safe_filename (lead ++ patient_name ++ trail) = safe_filename patient_name.
Proof.
  intros Hlead Htrail. unfold safe_filename. do 2 f_equal.
  destruct (PyFacts.strip_spec patient_name) as (l & t & Hs & Hl & Ht & Hh & Hla).
  apply (PyFacts.strip_unique _ (lead ++ l) _ (t ++ trail)); try done.
  - rewrite Hs at 1. by rewrite <- !app_assoc.
  - by apply Forall_app.
  - by apply Forall_app.
Qed.

Lemma filename_ignores_surrounding_space_witness :
  safe_filename (Py.lit "  " ++ Py.lit "Jane Doe" ++ Py.lit " ")
  = safe_filename (Py.lit "Jane Doe").
Proof.
  apply (filename_ignores_surrounding_space (Py.lit "  ") (Py.lit "Jane Doe") (Py.lit " ")).
  - vm_compute. repeat constructor.
  - vm_compute. repeat constructor.
Defined.

(** X22.  [strip] is idempotent, and it returns its argument unchanged
    exactly when the argument neither starts nor ends with white space. *)
Theorem strip_fixed_points (s : Py.str) :
  Py.strip (Py.strip s) = Py.strip s /\
  (Py.strip s = s <-> no_space_at_ends s).
Proof.
  destruct (PyFacts.strip_spec s) as (l & t & Hs & Hl & Ht & Hh & Hla).
  split; [| split].
  - apply (PyFacts.strip_unique _ [] _ []); try done. by rewrite app_nil_r.
  - intros <-. by split.
  - intros [Hh' Hla']. apply (PyFacts.strip_unique _ [] _ []); try done.
    by rewrite app_nil_r.
Qed.

End ReportExtras.

(** ** The extension of the uploaded file *)

Module UploadExtras.
Import Upload.

Lemma split_nonempty sep s : split sep s <> [].
Proof.
  destruct s as [|c r]; simpl; [done |].
  destruct (c =? sep)%N; [done |]. by destruct (split sep r).
Qed.

Lemma join_split sep s : join sep (split sep s) = s.
Proof.
  induction s as [|c r IH]; [done |]. simpl.
  pose proof (split_nonempty sep r) as Hne.
  destruct (N.eqb_spec c sep) as [-> | Hc].
  - destruct (split sep r) as [|q qs]; [done |]. simpl in *. by rewrite IH.
  - destruct (split sep r) as [|q qs]; [done |].
    destruct qs as [|q' qs]; simpl in *; by rewrite <- IH.
Qed.

Lemma split_no_sep sep s : sep ∉ s -> split sep s = [s].
Proof.
  induction s as [|c r IH]; [done |]. intros Hnin. simpl.
  destruct (N.eqb_spec c sep) as [-> | Hc]; [destruct Hnin; apply list_elem_of_here |].
  rewrite IH; [done |]. intros Hin. apply Hnin. by apply list_elem_of_further.
Qed.

Lemma last_cons_nonempty {A} (x : A) l : l <> [] -> last (x :: l) = last l.
Proof. by destruct l. Qed.

(** The last piece: free of the separator, and either the whole string or
    what follows its last separator. *)
Lemma last_split_spec sep s :
  exists e,
    last (split sep s) = Some e /\ (sep ∉ e) /\
    (s = e \/ exists p, s = p ++ sep :: e).
Proof.
  induction s as [|c r IH].
  - exists []. repeat split; [apply not_elem_of_nil | by left].
  - destruct IH as (e & Hlast & Hnin & Hshape). simpl.
    pose proof (split_nonempty sep r) as Hne.
    destruct (N.eqb_spec c sep) as [-> | Hc].
    + exists e. rewrite last_cons_nonempty by done. repeat split; try done.
      right. destruct Hshape as [-> | [p ->]]; [by exists [] | by exists (sep :: p)].
    + destruct (split sep r) as [|q qs] eqn:Hsplit; [done |].
      destruct qs as [|q' qs].
      * exists (c :: q). simpl in Hlast. injection Hlast as ->.
        pose proof (join_split sep r) as Hj. rewrite Hsplit in Hj. simpl in Hj. subst r.
        repeat split; [| by left].
        intros [? | ?]%elem_of_cons; [congruence | done].
      * exists e. repeat split; try done. right.
        destruct Hshape as [-> | [p ->]]; [| by exists (c :: p)].
        rewrite split_no_sep in Hsplit by done. discriminate.
Qed.

Lemma suffix_after_last_sep (sep : N) (p p' e e' : Py.str) :
  p ++ sep :: e = p' ++ sep :: e' -> sep ∉ e -> sep ∉ e' -> e = e'.
Proof.
  revert p'. induction p as [|c p IH]; intros [|c' p'] Heq Hnin Hnin'; simplify_eq/=.
  - done.
  - destruct Hnin. apply elem_of_app. right. apply list_elem_of_here.
  - destruct Hnin'. apply elem_of_app. right. apply list_elem_of_here.
  - by apply (IH p').
Qed.

(** X23.  Splitting at the dots and joining with dots gives the string
    back, and a split always has a piece: taking the last piece of the
    file name never raises. *)
Theorem split_join_round_trip (lower : Py.str -> Py.str) (name : Py.str) :
  join dot (split dot name) = name /\
  split dot name <> [] /\
  is_Some (file_ext lower name).
Proof.
  split; [apply join_split |]. split; [apply split_nonempty |].
  unfold file_ext. destruct (last_split_spec dot (lower name)) as (e & -> & _).
  by eexists.
Qed.

(** X24.  The extension that selects the branch is the part of the
    lower-cased name after its last dot, or the whole lower-cased name when
    it has no dot.  So the DICOM branch is taken exactly when the
    lower-cased name ends with [".dcm"] or is the bare word ["dcm"]. *)
Theorem file_ext_is_last_dot_suffix (lower : Py.str -> Py.str) (name ext : Py.str) :
  (file_ext lower name = Some ext <->
   (dot ∉ ext) /\ (lower name = ext \/ exists p, lower name = p ++ dot :: ext)) /\
  (file_ext lower name = Some (Py.lit "dcm") <->
   lower name = Py.lit "dcm" \/ exists p, lower name = p ++ Py.lit ".dcm").
Proof.
  assert (forall e, file_ext lower name = Some e <->
            (dot ∉ e) /\ (lower name = e \/ exists p, lower name = p ++ dot :: e)) as Hgen.
  { intros e. unfold file_ext.
    destruct (last_split_spec dot (lower name)) as (e0 & Hlast & Hnin & Hshape).
    rewrite Hlast. split.
    - by intros [= <-].
    - intros [Hnin' Hshape']. f_equal.
      destruct Hshape as [H0 | [p0 H0]], Hshape' as [H1 | [p1 H1]].
      + congruence.
      + destruct Hnin. rewrite <- H0, H1. apply elem_of_app. right. apply list_elem_of_here.
      + destruct Hnin'. rewrite <- H1, H0. apply elem_of_app. right. apply list_elem_of_here.
      + rewrite H0 in H1. by apply (suffix_after_last_sep dot p0 p1). }
  split; [apply Hgen |].
  rewrite Hgen. change (Py.lit ".dcm") with (dot :: Py.lit "dcm"). split.
  - by intros [_ ?].
  - intros H. split; [| done]. vm_compute.
    intros Hin. repeat (apply elem_of_cons in Hin as [? | Hin]; [done |]).
    by apply elem_of_nil in Hin.
Qed.

End UploadExtras.
